(** * RippyFish: the IIIF tile-grid download-and-composite engine

    A shallow embedding of [IIIFImageDownloader.calculate_tile_grid],
    [download_tile] and [download_and_composite_image] of [rippyfish.py],
    and the properties of the tile grid, of the strategy choice and of the
    compositing loop; then of [extract_openseadragon_sources] and
    [process_url], and the properties of the manifests taken from a page and
    of the files written for them. [__init__] and [main] are not modelled.

    Conventions of the embedding:
    - a Python [int] is a [Z]; [int / int] is the correctly rounded binary64
      quotient ([true_div]) and [math.ceil] takes it back to an [int];
    - the value returned by [response.json()] is a [json]; numbers are
      integers (JSON reals and [true]/[false] are not represented);
    - a raised exception is [Raise e] in the error monad [result]; the
      [try]/[except Exception] around the whole body of
      [download_and_composite_image] turns it into the return value [False];
    - a PIL image is its decoded raster, a size and a pixel function:
      [Image.open] is taken to decode the whole file (a file that opens and
      fails to decode only when it is pasted is not represented), and
      [img.save] is taken not to fail;
    - the network is a function from URL and timeout to a response or an
      exception, and [as_completed] is a function that reorders the list of
      futures; the theorems that depend on it assume that it permutes them;
    - a string is a sequence of characters below 256 (a Python [str] has
      all of Unicode); the two regular expressions of the scraper are
      written out as the scans they perform;
    - what BeautifulSoup makes of a page is a parameter, the list of the
      strings of its script tags; the output directory is a map from file
      names to images;
    - logging and the progress bar are left out. *)

From Stdlib Require Import ZArith Lia String DecimalString.
From stdpp Require Import gmap strings list.

Local Open Scope Z_scope.
Local Set Warnings "-register-all".

(** ** Exceptions and the error monad *)

Inductive exn : Type :=
  | KeyError
  | IndexError
  | TypeError
  | AttributeError
  | ZeroDivisionError
  | OverflowError
  | ValueError
  | RequestException
  | JSONDecodeError
  | UnidentifiedImageError.

Inductive result (A : Type) : Type :=
  | Ok (a : A)
  | Raise (e : exn).

Arguments Ok {A} a.
Arguments Raise {A} e.

#[export] Instance result_ret : MRet result := fun A a => Ok a.
#[export] Instance result_bind : MBind result := fun A B f r =>
  match r with
  | Ok a => f a
  | Raise e => Raise e
  end.
#[export] Instance result_fmap : FMap result := fun A B f r =>
  match r with
  | Ok a => Ok (f a)
  | Raise e => Raise e
  end.

Definition is_ok {A} (r : result A) : bool :=
  match r with
  | Ok _ => true
  | Raise _ => false
  end.

(** ** Python numbers: [int / int] and [math.ceil] *)

Module PyFloat.

(** A finite binary64 value [mant * 2 ^ expo]. *)
Record t : Type := mk { mant : Z; expo : Z }.

Definition prec : Z := 53.
Definition emin : Z := -1074.
Definition emax : Z := 1024.

(** [n / d] rounded to the nearest integer, ties to even ([0 <= n], [0 < d]). *)
Definition round_half_even (n d : Z) : Z :=
  let q := n / d in
  match 2 * (n mod d) ?= d with
  | Lt => q
  | Gt => q + 1
  | Eq => if Z.even q then q else q + 1
  end.

(** The [k] with [2 ^ k <= a / b < 2 ^ (k + 1)] ([0 < a], [0 < b]). *)
Definition floor_log2_quot (a b : Z) : Z :=
  let d := Z.log2 a - Z.log2 b in
  if (if 0 <=? d then b * 2 ^ d <=? a else b <=? a * 2 ^ (- d))
  then d else d - 1.

(** The quotient [a / b] of two positive integers rounded to 53 significant
    bits, with the exponent no smaller than that of the subnormals. *)
Definition round_quot (a b : Z) : t :=
  let e := Z.max (floor_log2_quot a b - (prec - 1)) emin in
  let m := if 0 <=? e then round_half_even a (b * 2 ^ e)
           else round_half_even (a * 2 ^ (- e)) b in
  mk m e.

(** [a / b] on Python ints: [ZeroDivisionError] on a zero divisor,
    [OverflowError] when the rounded quotient is too large for a float,
    [0.0] when it is too small. *)
Definition true_div (a b : Z) : result t :=
  if b =? 0 then Raise ZeroDivisionError
  else if a =? 0 then Ok (mk 0 0)
  else
    let f := round_quot (Z.abs a) (Z.abs b) in
    if 2 ^ emax <=? mant f * 2 ^ expo f then Raise OverflowError
    else Ok (mk (Z.sgn a * Z.sgn b * mant f) (expo f)).

(** [math.ceil(f)] *)
Definition ceil (f : t) : Z :=
  if 0 <=? expo f then mant f * 2 ^ expo f
  else - ((- mant f) / 2 ^ (- expo f)).

End PyFloat.

(** ** JSON values as Python objects *)

Inductive json : Type :=
  | JNull
  | JInt (z : Z)
  | JStr (s : string)
  | JArr (l : list json)
  | JObj (m : gmap string json).

(** [d[k]] for a string key [k] *)
Definition getitem (d : json) (k : string) : result json :=
  match d with
  | JObj m =>
      match m !! k with
      | Some v => Ok v
      | None => Raise KeyError
      end
  | _ => Raise TypeError
  end.

(** [d.get(k, default)] *)
Definition dict_get (d : json) (k : string) (default : json) : result json :=
  match d with
  | JObj m =>
      match m !! k with
      | Some v => Ok v
      | None => Ok default
      end
  | _ => Raise AttributeError
  end.

(** [v[0]] *)
Definition getitem0 (v : json) : result json :=
  match v with
  | JArr (x :: _) => Ok x
  | JArr [] => Raise IndexError
  | JStr (String c _) => Ok (JStr (String c EmptyString))
  | JStr EmptyString => Raise IndexError
  | JObj _ => Raise KeyError
  | JNull | JInt _ => Raise TypeError
  end.

(** Truth value of an object, as [not v] and [if v] take it. *)
Definition truthy (v : json) : bool :=
  match v with
  | JNull => false
  | JInt z => negb (z =? 0)
  | JStr s => negb (String.eqb s EmptyString)
  | JArr l => negb (Nat.eqb (length l) 0)
  | JObj m => negb (Nat.eqb (size m) 0)
  end.

(** [v <= n] for an int literal [n] *)
Definition py_le (v : json) (n : Z) : result bool :=
  match v with
  | JInt z => Ok (z <=? n)
  | _ => Raise TypeError
  end.

(** [a / b] *)
Definition py_div (a b : json) : result PyFloat.t :=
  match a, b with
  | JInt x, JInt y => PyFloat.true_div x y
  | _, _ => Raise TypeError
  end.

Definition as_int (v : json) : result Z :=
  match v with
  | JInt z => Ok z
  | _ => Raise TypeError
  end.

(** ** Strings *)

(** [str(n)], the decimal numeral an f-string prints for an int. *)
Definition str (n : Z) : string := NilZero.string_of_int (Z.to_int n).

(** [s.replace(old, new)] for a non-empty [old]: every occurrence of [old],
    scanning from the left and not overlapping, becomes [new]. [skip] counts
    the characters of a matched occurrence still to drop. *)
Fixpoint replace_from (old new : string) (skip : nat) (s : string) : string :=
  match s with
  | EmptyString => EmptyString
  | String c s' =>
      match skip with
      | S k => replace_from old new k s'
      | O =>
          if String.prefix old s
          then new +:+ replace_from old new (String.length old - 1)%nat s'
          else String c (replace_from old new O s')
      end
  end.

Definition str_replace (s old new : string) : string := replace_from old new O s.

(** [sub in s] for a non-empty [sub] *)
Fixpoint contains (s sub : string) : bool :=
  match s with
  | EmptyString => false
  | String _ s' => String.prefix sub s || contains s' sub
  end.

(** ** PIL images *)

Definition rgb : Type := Z * Z * Z.

Definition white : rgb := (255, 255, 255).

Record image : Type := mk_image {
  size_x : Z;
  size_y : Z;
  pixel : Z -> Z -> rgb
}.

Definition in_image (im : image) (i j : Z) : bool :=
  (0 <=? i) && (i <? size_x im) && (0 <=? j) && (j <? size_y im).

(** [Image.new('RGB', (w, h), color)]: [ValueError] on a negative size. *)
Definition Image_new (w h : Z) (color : rgb) : result image :=
  if (w <? 0) || (h <? 0) then Raise ValueError
  else Ok (mk_image w h (fun _ _ => color)).

(** [canvas.paste(tile, (x, y))]: the tile goes with its upper left corner at
    [(x, y)]; what falls outside the canvas is clipped. *)
Definition paste (canvas tile : image) (pos : Z * Z) : image :=
  let '(x, y) := pos in
  mk_image (size_x canvas) (size_y canvas)
    (fun i j =>
       if in_image canvas i j && in_image tile (i - x) (j - y)
       then pixel tile (i - x) (j - y)
       else pixel canvas i j).


(** ** The network and the thread pool *)

(** What [session.get(url, timeout=...)] followed by [raise_for_status()]
    hands back: what [response.json()] and what
    [Image.open(BytesIO(response.content))] make of the body. *)
Record response : Type := mk_response {
  json_body : result json;
  image_body : result image
}.

(** A future of the pool with the entry [future_to_pos] keeps for it:
    [(future.result(), (url, pos))]. *)
Definition future : Type := option image * (string * (Z * Z)).

Record env : Type := mk_env {
  session_get : string -> Z -> result response;
  as_completed : list future -> list future
}.

(** ** IIIFImageDownloader *)

Section Downloader.

Variable E : env.

Definition fetch_iiif_metadata (info_url : string) : result json :=
  r ← session_get E info_url 30;
  json_body r.

Definition calculate_tile_grid (width height tile_size : json) : result (Z * Z) :=
  fx ← py_div width tile_size;
  let num_tiles_x := PyFloat.ceil fx in
  fy ← py_div height tile_size;
  let num_tiles_y := PyFloat.ceil fy in
  Ok (num_tiles_x, num_tiles_y).

(** The body of the [try] of [download_tile]. *)
Definition open_tile (url : string) : result image :=
  r ← session_get E url 30;
  image_body r.

Definition download_tile (url : string) : option image :=
  match open_tile url with
  | Ok im => Some im
  | Raise _ => None
  end.

(** Lines 175-191: the values read from the metadata. *)
Record descriptor : Type := mk_descriptor {
  width : json;
  height : json;
  tile_size : json;
  base_url : string;
  tiles_info : json
}.

Definition read_descriptor (info_url : string) (metadata : json) : result descriptor :=
  width ← getitem metadata "width";
  height ← getitem metadata "height";
  tiles ← dict_get metadata "tiles" (JArr [JObj ∅]);
  tile0 ← getitem0 tiles;
  tile_size ← dict_get tile0 "width" (JInt 256);
  let base_url := str_replace info_url "/info.json" EmptyString in
  tiles_info ← dict_get metadata "tiles" (JArr []);
  Ok (mk_descriptor width height tile_size base_url tiles_info).

(** Line 193: [not tiles_info or (width <= 2000 and height <= 2000)] *)
Definition use_full_image (d : descriptor) : result bool :=
  if negb (truthy (tiles_info d)) then Ok true
  else
    small_x ← py_le (width d) 2000;
    if small_x : bool then py_le (height d) 2000 else Ok false.

Definition full_url (base_url : string) : string :=
  base_url +:+ "/full/full/0/default.png".

(** Lines 194-207 *)
Definition download_full_image (d : descriptor) : result image :=
  r ← session_get E (full_url (base_url d)) 120;
  img ← image_body r;
  Ok img.

(** One grid cell: the region [x,y,w,h] of lines 227-230. *)
Record region : Type := mk_region { rx : Z; ry : Z; rw : Z; rh : Z }.

Definition cell (width height tile_size tx ty : Z) : region :=
  let x := tx * tile_size in
  let y := ty * tile_size in
  let w := Z.min tile_size (width - x) in
  let h := Z.min tile_size (height - y) in
  mk_region x y w h.

(** The two nested [for] loops of lines 224-237, [ty] outer and [tx] inner. *)
Definition tile_cells (width height tile_size num_tiles_x num_tiles_y : Z) : list region :=
  ty ← seqZ 0 num_tiles_y;
  (fun tx => cell width height tile_size tx ty) <$> seqZ 0 num_tiles_x.

Definition tile_url (base_url : string) (c : region) : string :=
  let region := str (rx c) +:+ "," +:+ str (ry c) +:+ "," +:+ str (rw c) +:+ "," +:+ str (rh c) in
  base_url +:+ "/" +:+ region +:+ "/full/0/default.jpg".

Definition tile_position (c : region) : Z * Z := (rx c, ry c).

(** The state of the loop of lines 250-260. *)
Record tally : Type := mk_tally {
  output_image : image;
  tiles_downloaded : Z;
  tiles_failed : Z
}.

Definition composite_step (s : tally) (f : future) : tally :=
  let '(tile_img, (url, pos)) := f in
  match tile_img with
  | Some im => mk_tally (paste (output_image s) im pos) (tiles_downloaded s + 1) (tiles_failed s)
  | None => mk_tally (output_image s) (tiles_downloaded s) (tiles_failed s + 1)
  end.

Definition composite (canvas : image) (completed : list future) : tally :=
  foldl composite_step (mk_tally canvas 0 0) completed.

(** The futures submitted to the pool, in submission order. *)
Definition submit_all (tile_urls : list string) (tile_positions : list (Z * Z)) : list future :=
  (fun '(url, pos) => (download_tile url, (url, pos))) <$> zip tile_urls tile_positions.

(** Lines 209-260, up to the end of the compositing loop. The three
    [as_int] read the sizes as the integers that the divisions of
    [calculate_tile_grid] have found them to be; they cannot raise there. *)
Definition download_tiles (d : descriptor) : result tally :=
  '(num_tiles_x, num_tiles_y) ← calculate_tile_grid (width d) (height d) (tile_size d);
  width ← as_int (width d);
  height ← as_int (height d);
  tile_size ← as_int (tile_size d);
  canvas ← Image_new width height white;
  let cells := tile_cells width height tile_size num_tiles_x num_tiles_y in
  let tile_urls := tile_url (base_url d) <$> cells in
  let tile_positions := tile_position <$> cells in
  Ok (composite canvas (as_completed E (submit_all tile_urls tile_positions))).

(** The body of the [try] of [download_and_composite_image]: the image that
    is saved, or the exception that is raised. *)
Definition composite_image (info_url : string) : result image :=
  metadata ← fetch_iiif_metadata info_url;
  d ← read_descriptor info_url metadata;
  full ← use_full_image d;
  if full : bool then download_full_image d
  else output_image <$> download_tiles d.

Definition download_and_composite_image (info_url : string) : bool :=
  is_ok (composite_image info_url).

End Downloader.

(** ** Rectangles and coverings *)

(** The pixel [(i, j)] lies in the rectangle [c]. *)
Definition in_region (c : region) (i j : Z) : bool :=
  (rx c <=? i) && (i <? rx c + rw c) && (ry c <=? j) && (j <? ry c + rh c).

(** The rectangles of [cells] tile [[0,width) x [0,height)]: none of them
    reaches outside it, and each of its pixels lies in the rectangle at
    exactly one index of the list. *)
Definition tiles_exactly (width height : Z) (cells : list region) : Prop :=
  (forall c i j, c ∈ cells -> in_region c i j = true ->
     0 <= i < width /\ 0 <= j < height) /\
  (forall i j, 0 <= i < width -> 0 <= j < height ->
     exists k c, cells !! k = Some c /\ in_region c i j = true /\
       forall k' c', cells !! k' = Some c' -> in_region c' i j = true -> k' = k).

(** [ceil(a / b)] in exact integer arithmetic ([0 < b]). *)
Definition ceil_div (a b : Z) : Z := (a + b - 1) / b.

(** ** The plan and what it writes *)

(** The future submitted for the cell [c]. *)
Definition future_of (E : env) (base_url : string) (c : region) : future :=
  (download_tile E (tile_url base_url c), (tile_url base_url c, tile_position c)).



(** The tile request for [c] failed. *)
Definition failed (E : env) (base_url : string) (c : region) : Prop :=
  download_tile E (tile_url base_url c) = None.

#[export] Instance failed_dec (E : env) (base_url : string) (c : region) :
  Decision (failed E base_url c) := option_eq_None_dec _.

(** ** Servers and descriptors used in the examples *)

Module Samples.

Definition solid (w h : Z) (c : rgb) : image := mk_image w h (fun _ _ => c).

Definition red : rgb := (255, 0, 0).

Definition info_url : string := "https://iiif.example.org/page1/info.json".

(** A server that answers every request: with [metadata] as the JSON body and
    with [tiles url] as the image. *)
Definition server (metadata : json) (tiles : string -> result image)
    (order : list future -> list future) : env :=
  mk_env (fun url _ => Ok (mk_response (Ok metadata) (tiles url))) order.

(** [{"width": w, "height": h}] *)
Definition untiled (w h : Z) : gmap string json :=
  <["width" := JInt w]> (<["height" := JInt h]> ∅).

(** [{"width": w, "height": h, "tiles": [{"width": t}]}] *)
Definition tiled (w h t : Z) : gmap string json :=
  <["tiles" := JArr [JObj {["width" := JInt t]}]]> (untiled w h).



End Samples.

(** ** The page: scripts, manifests and file names

    The rest of [IIIFImageDownloader]. A string is a sequence of characters
    below 256. What BeautifulSoup makes of the HTML is a parameter: the list
    of the [script.string] of the tags that
    [soup.find_all('script', type='text/javascript')] returns, [None] for a
    tag that has no single string. The two regular expressions are written
    out as the scans they perform. *)

From Stdlib Require Import Ascii Decimal DecimalPos DecimalZ.

(** [c in s] for a character [c] *)
Fixpoint occurs (c : Ascii.ascii) (s : string) : bool :=
  match s with
  | EmptyString => false
  | String a s' => Ascii.eqb a c || occurs c s'
  end.

(** What [\s] matches: the characters [str.isspace] holds of. *)
Definition is_space (c : Ascii.ascii) : bool :=
  let n := Ascii.nat_of_ascii c in
  ((9 <=? n) && (n <=? 13) || (28 <=? n) && (n <=? 32) || (n =? 133) || (n =? 160))%nat.

(** The rest of [s] after a greedy [\s*]. *)
Fixpoint skip_spaces (s : string) : string :=
  match s with
  | EmptyString => EmptyString
  | String c s' => if is_space c then skip_spaces s' else s
  end.

(** The rest of [s] after the literal [p], when [s] starts with it. *)
Fixpoint strip_prefix (p s : string) : option string :=
  match p with
  | EmptyString => Some s
  | String a p' =>
      match s with
      | EmptyString => None
      | String b s' => if Ascii.eqb a b then strip_prefix p' s' else None
      end
  end.

(** [s] cut at the first [c]: what is before it and what is after it. *)
Fixpoint split_at (c : Ascii.ascii) (s : string) : option (string * string) :=
  match s with
  | EmptyString => None
  | String a s' =>
      if Ascii.eqb a c then Some (EmptyString, s')
      else '(before, after) ← split_at c s'; Some (String a before, after)
  end.

(** A match of [tileSources\s*:\s*\[(.*?)\]] (with [re.DOTALL]) at the start
    of [s]: its group 1. *)
Definition match_tile_sources (s : string) : option string :=
  r1 ← strip_prefix "tileSources" s;
  r2 ← strip_prefix ":" (skip_spaces r1);
  r3 ← strip_prefix "[" (skip_spaces r2);
  fst <$> split_at "]"%char r3.

(** [re.search(pattern, s, re.DOTALL)]: the match at the leftmost position
    that has one. *)
Fixpoint search_tile_sources (s : string) : option string :=
  match match_tile_sources s with
  | Some sources_str => Some sources_str
  | None =>
      match s with
      | EmptyString => None
      | String _ s' => search_tile_sources s'
      end
  end.

Definition is_quote (c : Ascii.ascii) : bool :=
  Ascii.eqb c "034"%char || Ascii.eqb c "039"%char.

(** The longest prefix of [s] without a quote, and what follows it. *)
Fixpoint span_unquoted (s : string) : string * string :=
  match s with
  | EmptyString => (EmptyString, EmptyString)
  | String c s' =>
      if is_quote c then (EmptyString, s)
      else let '(u, rest) := span_unquoted s' in (String c u, rest)
  end.

(** A match of the URL pattern at the start of [s]: a quote of either kind,
    one or more characters that are no quotes, a quote of either kind. Its
    group 1, the characters between the quotes, and what follows the
    match. *)
Definition match_quoted (s : string) : option (string * string) :=
  match s with
  | EmptyString => None
  | String q r =>
      if is_quote q then
        match span_unquoted r with
        | (String c u, String _ rest) => Some (String c u, rest)
        | _ => None
        end
      else None
  end.

(** [re.findall(url_pattern, s)]: the groups of the matches found from left
    to right, each search starting where the match before it ended. [skip]
    counts the characters of a match still to pass over. *)
Fixpoint find_quoted (skip : nat) (s : string) : list string :=
  match s with
  | EmptyString => []
  | String _ s' =>
      match skip with
      | S k => find_quoted k s'
      | O =>
          match match_quoted s with
          | Some (u, _) => u :: find_quoted (String.length u + 1) s'
          | None => find_quoted O s'
          end
      end
  end.

(** The body of the loop of lines 88-104 for one script tag. *)
Definition script_sources (script_content : option string) : list string :=
  match script_content with
  | Some content =>
      if negb (String.eqb content EmptyString) && contains content "OpenSeadragon" then
        match search_tile_sources content with
        | Some sources_str =>
            let urls := find_quoted O sources_str in
            filter (fun url => contains url "info.json" = true) urls
        | None => []
        end
      else []
  | None => []
  end.

(** [extract_openseadragon_sources], from the strings of the script tags. *)
Definition extract_openseadragon_sources (script_tags : list (option string)) : list string :=
  script ← script_tags; script_sources script.

(** [s] filled with zeros on the left up to [width] characters. *)
Definition zfill (width : nat) (s : string) : string :=
  Nat.iter (width - String.length s) (String "0"%char) s.

(** [f"{idx:03d}"] *)
Definition format_03d (idx : Z) : string :=
  if idx <? 0 then String "-"%char (zfill 2 (str (- idx))) else zfill 3 (str idx).

(** [f"image_{idx:03d}.png"] *)
Definition output_filename (idx : Z) : string :=
  "image_" +:+ format_03d idx +:+ ".png".






(** ** Vocabulary of the statements about the page *)

(** No character of [s] is a quote. *)
Fixpoint unquoted (s : string) : bool :=
  match s with
  | EmptyString => true
  | String c s' => negb (is_quote c) && unquoted s'
  end.

(** Every character of [s] is one that [\s] matches. *)
Fixpoint all_spaces (s : string) : bool :=
  match s with
  | EmptyString => true
  | String c s' => is_space c && all_spaces s'
  end.

(** One string literal of a JavaScript array: the text before it, its
    opening quote, its characters and its closing quote. *)
Record literal : Type := mk_literal {
  lead : string;
  opening : Ascii.ascii;
  chars : string;
  closing : Ascii.ascii
}.

Definition write_literal (l : literal) : string :=
  lead l +:+ String (opening l) (chars l +:+ String (closing l) EmptyString).

Definition write_literals (ls : list literal) : string :=
  foldr (fun l s => write_literal l +:+ s) EmptyString ls.

(** The text before the literal has no quote, the literal is opened and
    closed by a quote of either kind, and between them there is at least one
    character and no quote. *)
Definition well_quoted (l : literal) : bool :=
  unquoted (lead l) && is_quote (opening l)
  && negb (String.eqb (chars l) EmptyString) && unquoted (chars l)
  && is_quote (closing l).

(** ** A page used in the examples *)

Module PageSamples.


Definition manifest1 : string := "https://iiif.example.org/page1/info.json".
Definition manifest2 : string := "https://iiif.example.org/page2/info.json".

(** The text of a script tag: a viewer with two manifests and a thumbnail. *)
Definition script : string :=
  "OpenSeadragon({ id: 'viewer', tileSources: [ 'https://iiif.example.org/page1/info.json', 'https://iiif.example.org/page2/info.json', 'thumb.jpg' ] });".




End PageSamples.

(** ** Proof support *)

Lemma bind_Ok {A B} (r : result A) (f : A -> result B) (b : B) :
  r ≫= f = Ok b <-> exists a, r = Ok a /\ f a = Ok b.
Proof.
  destruct r as [a|e]; simpl; split.
  - intros H. exists a. split; [reflexivity | exact H].
  - intros (a' & Ha & Hf). injection Ha as ->. exact Hf.
  - intros H. discriminate H.
  - intros (a' & Ha & _). discriminate Ha.
Qed.


(** Inverts the hypotheses [... ≫= ... = Ok _] of the context. *)
Ltac invert_Ok :=
  repeat match goal with
  | H : _ ≫= _ = Ok _ |- _ =>
      let a := fresh "a" in
      let Ha := fresh "Ha" in
      apply bind_Ok in H; destruct H as (a & Ha & H)
  | H : Ok _ = Ok _ |- _ => injection H as H
  | H : Raise _ = Ok _ |- _ => discriminate H
  end.

(** ** Reading the descriptor *)

Lemma getitem_Ok (d : json) (k : string) (v : json) :
  getitem d k = Ok v <-> exists m, d = JObj m /\ m !! k = Some v.
Proof.
  unfold getitem. split.
  - destruct d as [| | | |m]; try discriminate.
    destruct (m !! k) as [v'|] eqn:Hk; [|discriminate].
    intros [= ->]. exists m. split; [reflexivity | exact Hk].
  - intros (m & -> & ->). reflexivity.
Qed.

Lemma dict_get_Ok (d : json) (k : string) (default v : json) :
  dict_get d k default = Ok v <->
  exists m, d = JObj m /\ v = match m !! k with Some x => x | None => default end.
Proof.
  unfold dict_get. split.
  - destruct d as [| | | |m]; try discriminate.
    intros H. exists m. split; [reflexivity|].
    destruct (m !! k); injection H as <-; reflexivity.
  - intros (m & -> & ->). destruct (m !! k); reflexivity.
Qed.

(** The descriptor that [read_descriptor] returns, field by field. *)
Lemma read_descriptor_Ok (info_url : string) (metadata : json) (d : descriptor) :
  read_descriptor info_url metadata = Ok d ->
  exists m tile0,
    metadata = JObj m /\
    m !! "width" = Some (width d) /\
    m !! "height" = Some (height d) /\
    getitem0 (default (JArr [JObj ∅]) (m !! "tiles")) = Ok (JObj tile0) /\
    tile_size d = default (JInt 256) (tile0 !! "width") /\
    base_url d = str_replace info_url "/info.json" EmptyString /\
    tiles_info d = default (JArr []) (m !! "tiles").
Proof.
  unfold read_descriptor. intros H. invert_Ok.
  apply getitem_Ok in Ha as (m & -> & Hw).
  apply getitem_Ok in Ha0 as (m' & [= <-] & Hh).
  apply dict_get_Ok in Ha1 as (m' & [= <-] & ->).
  apply dict_get_Ok in Ha3 as (tile0 & -> & ->).
  apply dict_get_Ok in Ha4 as (m' & [= <-] & ->).
  subst d. exists m, tile0. simpl.
  repeat split; try assumption; destruct (m !! "tiles"), (tile0 !! "width"); reflexivity.
Qed.

(** A descriptor that was read has a tile configuration exactly when the
    metadata has the key ["tiles"]. *)
Lemma read_descriptor_truthy (info_url : string) (m : gmap string json) (d : descriptor) :
  read_descriptor info_url (JObj m) = Ok d ->
  truthy (tiles_info d) = false <-> m !! "tiles" = None.
Proof.
  intros H. apply read_descriptor_Ok in H as (m' & tile0 & [= <-] & _ & _ & H0 & _ & _ & ->).
  destruct (m !! "tiles") as [tv|]; simpl in *.
  - split; [|discriminate]. destruct tv as [| |s|l|o]; try discriminate.
    + destruct s; discriminate.
    + destruct l; [discriminate|]. simpl. discriminate.
  - split; reflexivity.
Qed.

(** ** The choice between the full image and the tiles *)

(** C2. For a descriptor read from the metadata, with integer width and
    height, line 193 chooses the single full-image download exactly when the
    metadata has no ["tiles"] entry or both width and height are at most
    2000, and the tiled download in every other case; the choice depends on
    the descriptor alone. *)
Theorem strategy_choice (E : env) (info_url : string) (m : gmap string json)
    (d : descriptor) (w h : Z) :
  fetch_iiif_metadata E info_url = Ok (JObj m) ->
  read_descriptor info_url (JObj m) = Ok d ->
  width d = JInt w ->
  height d = JInt h ->
  (use_full_image d = Ok true <-> (m !! "tiles" = None \/ (w <= 2000 /\ h <= 2000))) /\
  (use_full_image d = Ok false <-> ~ (m !! "tiles" = None \/ (w <= 2000 /\ h <= 2000))) /\
  (use_full_image d = Ok true -> composite_image E info_url = download_full_image E d) /\
  (use_full_image d = Ok false ->
   composite_image E info_url = output_image <$> download_tiles E d).
Proof.
  intros Hfetch Hread Hw Hh.
  pose proof (read_descriptor_truthy _ _ _ Hread) as Htiles.
  assert (Hrun : forall b, use_full_image d = Ok b ->
            composite_image E info_url
            = if b then download_full_image E d else output_image <$> download_tiles E d).
  { intros b Hb. unfold composite_image. rewrite Hfetch. simpl.
    rewrite Hread. simpl. rewrite Hb. reflexivity. }
  assert (Hval : use_full_image d
                 = Ok (negb (truthy (tiles_info d)) || ((w <=? 2000) && (h <=? 2000)))).
  { unfold use_full_image. rewrite Hw, Hh.
    destruct (truthy (tiles_info d)); [simpl|reflexivity].
    destruct (w <=? 2000); reflexivity. }
  assert (Hiff : negb (truthy (tiles_info d)) || ((w <=? 2000) && (h <=? 2000)) = true
                 <-> (m !! "tiles" = None \/ (w <= 2000 /\ h <= 2000))).
  { rewrite orb_true_iff, andb_true_iff, negb_true_iff, !Z.leb_le, Htiles. reflexivity. }
  rewrite Hval in *.
  destruct (negb (truthy (tiles_info d)) || ((w <=? 2000) && (h <=? 2000))).
  - split; [|split; [|split]].
    + split; [intros _; apply Hiff; reflexivity | reflexivity].
    + split; [intros [=] | intros Hn; exfalso; apply Hn, Hiff; reflexivity].
    + intros _. apply (Hrun true). reflexivity.
    + intros [=].
  - split; [|split; [|split]].
    + split; [intros [=] | intros H; apply Hiff in H; discriminate H].
    + split; [intros _ H; apply Hiff in H; discriminate H | reflexivity].
    + intros [=].
    + intros _. apply (Hrun false). reflexivity.
Qed.

Lemma strategy_choice_witness :
  let E := Samples.server (JObj (Samples.tiled 5000 3000 1000))
             (fun _ => Raise RequestException) (fun l => l) in
  let d := mk_descriptor (JInt 5000) (JInt 3000) (JInt 1000)
             "https://iiif.example.org/page1"
             (JArr [JObj {["width" := JInt 1000]}]) in
  use_full_image d = Ok false /\
  composite_image E Samples.info_url = output_image <$> download_tiles E d.
Proof.
  intros E d.
  destruct (strategy_choice E Samples.info_url (Samples.tiled 5000 3000 1000) d 5000 3000)
    as (_ & _ & _ & Hrun); try reflexivity.
  split; [reflexivity | apply Hrun; reflexivity].
Defined.

(** ** What the resolver rejects *)

(** With both sizes present and no ["tiles"] entry the descriptor is read,
    whatever the sizes are, and the tile size is 256. *)
Lemma read_descriptor_untiled (info_url : string) (m : gmap string json) (wv hv : json) :
  m !! "width" = Some wv ->
  m !! "height" = Some hv ->
  m !! "tiles" = None ->
  read_descriptor info_url (JObj m)
  = Ok (mk_descriptor wv hv (JInt 256) (str_replace info_url "/info.json" EmptyString) (JArr [])).
Proof.
  intros Hw Hh Ht. unfold read_descriptor, getitem, dict_get.
  rewrite Hw, Hh, Ht. reflexivity.
Qed.

(** With a first ["tiles"] entry the tile size is its ["width"], or 256 when
    it has none. *)
Lemma read_descriptor_tiled (info_url : string) (m t : gmap string json) (wv hv : json)
    (rest : list json) :
  m !! "width" = Some wv ->
  m !! "height" = Some hv ->
  m !! "tiles" = Some (JArr (JObj t :: rest)) ->
  read_descriptor info_url (JObj m)
  = Ok (mk_descriptor wv hv (default (JInt 256) (t !! "width"))
          (str_replace info_url "/info.json" EmptyString) (JArr (JObj t :: rest))).
Proof.
  intros Hw Hh Ht. unfold read_descriptor, getitem, dict_get.
  rewrite Hw, Hh, Ht. simpl. destruct (t !! "width"); reflexivity.
Qed.

Lemma read_descriptor_missing (info_url : string) (m : gmap string json) :
  m !! "width" = None \/ m !! "height" = None ->
  read_descriptor info_url (JObj m) = Raise KeyError.
Proof.
  intros H. unfold read_descriptor, getitem.
  destruct (m !! "width") as [wv|]; [simpl|reflexivity].
  destruct H as [H|H]; [discriminate H|]. rewrite H. reflexivity.
Qed.

(** C4, as the code has it. Metadata without ["width"] or without ["height"]
    makes the lookup raise [KeyError] and the image fail; sizes that are
    present are taken as they are, non-positive ones included; the tile size
    is 256 when there is no ["tiles"] entry or its first entry has no
    ["width"]. *)
Theorem resolver_contract (E : env) (info_url : string) (m : gmap string json) :
  fetch_iiif_metadata E info_url = Ok (JObj m) ->
  ((m !! "width" = None \/ m !! "height" = None) ->
   read_descriptor info_url (JObj m) = Raise KeyError /\
   download_and_composite_image E info_url = false) /\
  (forall w h : Z,
     m !! "width" = Some (JInt w) -> m !! "height" = Some (JInt h) ->
     m !! "tiles" = None ->
     exists d, read_descriptor info_url (JObj m) = Ok d /\
               width d = JInt w /\ height d = JInt h /\ tile_size d = JInt 256) /\
  (forall (w h : Z) (t : gmap string json) (rest : list json),
     m !! "width" = Some (JInt w) -> m !! "height" = Some (JInt h) ->
     m !! "tiles" = Some (JArr (JObj t :: rest)) -> t !! "width" = None ->
     exists d, read_descriptor info_url (JObj m) = Ok d /\
               width d = JInt w /\ height d = JInt h /\ tile_size d = JInt 256).
Proof.
  intros Hfetch. split; [|split].
  - intros Hmiss. pose proof (read_descriptor_missing info_url m Hmiss) as Hr.
    split; [exact Hr|].
    unfold download_and_composite_image, composite_image.
    rewrite Hfetch. simpl. rewrite Hr. reflexivity.
  - intros w h Hw Hh Ht. eexists. split.
    + apply read_descriptor_untiled; eassumption.
    + repeat split.
  - intros w h t rest Hw Hh Ht Htw. eexists. split.
    + apply read_descriptor_tiled; eassumption.
    + simpl. rewrite Htw. repeat split.
Qed.

Lemma resolver_contract_witness :
  let E := Samples.server (JObj (Samples.untiled (-7) 0))
             (fun _ => Raise RequestException) (fun l => l) in
  exists d, read_descriptor Samples.info_url (JObj (Samples.untiled (-7) 0)) = Ok d /\
            width d = JInt (-7) /\ height d = JInt 0 /\ tile_size d = JInt 256.
Proof.
  intros E.
  destruct (resolver_contract E Samples.info_url (Samples.untiled (-7) 0)) as (_ & H & _).
  - reflexivity.
  - apply (H (-7) 0); reflexivity.
Defined.

(** C4, counterexample. The metadata [{"width": 0, "height": -5}] is read
    without an error, and the image is downloaded and reported as done. *)
Lemma nonpositive_size_accepted :
  let md := JObj (Samples.untiled 0 (-5)) in
  let E := Samples.server md (fun _ => Ok (Samples.solid 10 10 Samples.red)) (fun l => l) in
  is_ok (read_descriptor Samples.info_url md) = true /\
  download_and_composite_image E Samples.info_url = true.
Proof. split; reflexivity. Qed.

(** ** The full-image download *)

(** C8, as the code has it. When the metadata is read, line 193 chooses the
    full image and the request for it succeeds, the decoded raster is what is
    saved, as it is: no canvas is allocated or filled, and nothing compares
    the raster's size with the declared width and height or crops it. *)
Theorem full_image_saved_as_is (E : env) (info_url : string) (metadata : json)
    (d : descriptor) (r : response) (img : image) :
  fetch_iiif_metadata E info_url = Ok metadata ->
  read_descriptor info_url metadata = Ok d ->
  use_full_image d = Ok true ->
  session_get E (base_url d +:+ "/full/full/0/default.png") 120 = Ok r ->
  image_body r = Ok img ->
  composite_image E info_url = Ok img /\
  download_and_composite_image E info_url = true.
Proof.
  intros Hfetch Hread Hfull Hget Himg.
  assert (H : composite_image E info_url = Ok img).
  { unfold composite_image. rewrite Hfetch. simpl. rewrite Hread. simpl.
    rewrite Hfull. simpl. unfold download_full_image, full_url.
    rewrite Hget. simpl. rewrite Himg. reflexivity. }
  split; [exact H|]. unfold download_and_composite_image. rewrite H. reflexivity.
Qed.

Lemma full_image_saved_as_is_witness :
  let img := Samples.solid 1000 1000 Samples.red in
  let E := Samples.server (JObj (Samples.untiled 1000 1000)) (fun _ => Ok img) (fun l => l) in
  composite_image E Samples.info_url = Ok img /\
  download_and_composite_image E Samples.info_url = true.
Proof.
  intros img E.
  apply (full_image_saved_as_is E Samples.info_url (JObj (Samples.untiled 1000 1000))
           (mk_descriptor (JInt 1000) (JInt 1000) (JInt 256)
              "https://iiif.example.org/page1" (JArr []))
           (mk_response (Ok (JObj (Samples.untiled 1000 1000))) (Ok img)) img);
    reflexivity.
Defined.

(** C8, counterexample. The metadata declares 1000 x 1000 and the server
    answers the full-image request with a 10 x 10 raster: the image saved is
    the 10 x 10 raster. *)
Lemma mismatched_full_image_not_cropped :
  let E := Samples.server (JObj (Samples.untiled 1000 1000))
             (fun _ => Ok (Samples.solid 10 10 Samples.red)) (fun l => l) in
  exists img, composite_image E Samples.info_url = Ok img /\
              size_x img = 10 /\ size_y img = 10.
Proof. eexists. split; [reflexivity|]. split; reflexivity. Qed.

(** ** An empty tile list *)

(** C10. When the metadata has ["tiles": []], line 179 raises [IndexError]
    at [[0]] (given that width and height are there to be read on the lines
    before it), the image is reported as failed, and line 193, which would
    have chosen the full image for an empty tile list, is not reached. *)
Theorem empty_tiles_fail (E : env) (info_url : string) (m : gmap string json) :
  fetch_iiif_metadata E info_url = Ok (JObj m) ->
  m !! "tiles" = Some (JArr []) ->
  download_and_composite_image E info_url = false /\
  (is_Some (m !! "width") -> is_Some (m !! "height") ->
   read_descriptor info_url (JObj m) = Raise IndexError /\
   composite_image E info_url = Raise IndexError) /\
  (forall d, tiles_info d = JArr [] -> use_full_image d = Ok true).
Proof.
  intros Hfetch Htiles.
  assert (Hrun : forall e, read_descriptor info_url (JObj m) = Raise e ->
                           composite_image E info_url = Raise e).
  { intros e He. unfold composite_image. rewrite Hfetch. simpl. rewrite He. reflexivity. }
  assert (Hread : exists e, read_descriptor info_url (JObj m) = Raise e).
  { unfold read_descriptor, getitem, dict_get. rewrite Htiles.
    destruct (m !! "width"); simpl; [|eexists; reflexivity].
    destruct (m !! "height"); simpl; eexists; reflexivity. }
  split; [|split].
  - destruct Hread as [e He]. unfold download_and_composite_image.
    rewrite (Hrun e He). reflexivity.
  - intros [wv Hw] [hv Hh].
    assert (He : read_descriptor info_url (JObj m) = Raise IndexError).
    { unfold read_descriptor, getitem, dict_get. rewrite Hw, Hh, Htiles. reflexivity. }
    split; [exact He | exact (Hrun _ He)].
  - intros d Hd. unfold use_full_image. rewrite Hd. reflexivity.
Qed.

Lemma empty_tiles_fail_witness :
  let m := <["tiles" := JArr []]> (Samples.untiled 1000 1000) in
  let E := Samples.server (JObj m) (fun _ => Ok (Samples.solid 1000 1000 Samples.red))
             (fun l => l) in
  download_and_composite_image E Samples.info_url = false /\
  composite_image E Samples.info_url = Raise IndexError.
Proof.
  intros m E.
  destruct (empty_tiles_fail E Samples.info_url m) as (H1 & H2 & _); try reflexivity.
  split; [exact H1|].
  apply H2; eexists; reflexivity.
Defined.

(** ** The base URL *)

Lemma prefix_String (a b : Ascii.ascii) (s1 s2 : string) :
  String.prefix (String a s1) (String b s2)
  = if Ascii.ascii_dec a b then String.prefix s1 s2 else false.
Proof. reflexivity. Qed.

Lemma app_String (a : Ascii.ascii) (s1 s2 : string) :
  String a s1 +:+ s2 = String a (s1 +:+ s2).
Proof. reflexivity. Qed.

Ltac split_prefix H :=
  match type of H with
  | (if ?D then _ else _) = true => destruct D; [|discriminate H]
  end.

Ltac straddle_step v H :=
  destruct v as [|? v];
  [ vm_compute in H; discriminate H
  | rewrite app_String, prefix_String in H; rewrite prefix_String; split_prefix H ].

(** An occurrence of ["/info.json"] cannot begin in [v] and end in a
    following ["/info.json"]: the pattern has no second ["/"]. *)
Lemma info_json_no_straddle (v : string) :
  v <> EmptyString ->
  String.prefix "/info.json" (v +:+ "/info.json") = true ->
  String.prefix "/info.json" v = true.
Proof.
  intros Hne H.
  destruct v as [|c v]; [congruence|]. clear Hne.
  rewrite app_String, prefix_String in H; rewrite prefix_String. split_prefix H.
  do 9 straddle_step v H.
  destruct v; reflexivity.
Qed.

Lemma replace_from_here (old new : string) (c : Ascii.ascii) (s : string) :
  replace_from old new 0 (String c s)
  = if String.prefix old (String c s)
    then new +:+ replace_from old new (String.length old - 1)%nat s
    else String c (replace_from old new 0 s).
Proof. reflexivity. Qed.

Lemma str_replace_suffix (b : string) :
  contains b "/info.json" = false ->
  str_replace (b +:+ "/info.json") "/info.json" EmptyString = b.
Proof.
  unfold str_replace. induction b as [|c b IH]; intros Hocc.
  - reflexivity.
  - rewrite app_String, replace_from_here.
    change (contains (String c b) "/info.json")
      with (String.prefix "/info.json" (String c b) || contains b "/info.json") in Hocc.
    apply orb_false_iff in Hocc as [Hhd Htl].
    assert (Hhere : String.prefix "/info.json" (String c (b +:+ "/info.json")) = false).
    { destruct (String.prefix "/info.json" (String c (b +:+ "/info.json"))) eqn:Hp;
        [|reflexivity].
      rewrite <- app_String in Hp. apply info_json_no_straddle in Hp; [|discriminate].
      rewrite Hhd in Hp. discriminate Hp. }
    rewrite Hhere. f_equal. apply IH, Htl.
Qed.

(** The base URL is [info_url.replace('/info.json', '')]. For a metadata URL
    [b + "/info.json"] in which ["/info.json"] occurs nowhere in [b], that is
    [b]: the suffix is removed and the rest is unchanged. *)
Theorem base_url_of_info_url (b : string) (metadata : json) (d : descriptor) :
  read_descriptor (b +:+ "/info.json") metadata = Ok d ->
  base_url d = str_replace (b +:+ "/info.json") "/info.json" EmptyString /\
  (contains b "/info.json" = false -> base_url d = b).
Proof.
  intros Hread.
  apply read_descriptor_Ok in Hread as (m & tile0 & _ & _ & _ & _ & _ & Hbase & _).
  split; [exact Hbase|].
  intros Hocc. rewrite Hbase. apply str_replace_suffix, Hocc.
Qed.

Lemma base_url_of_info_url_witness :
  let b := "https://iiif.example.org/page1" in
  exists d,
    read_descriptor (b +:+ "/info.json") (JObj (Samples.untiled 1000 1000)) = Ok d /\
    base_url d = b.
Proof.
  intros b. eexists. split; [reflexivity|].
  apply (base_url_of_info_url b (JObj (Samples.untiled 1000 1000))); reflexivity.
Defined.

(** C9, at a metadata URL in which ["/info.json"] occurs twice. For
    [https://iiif.example.org/info.json/p1/info.json], removing the suffix
    from the end leaves [https://iiif.example.org/info.json/p1]; [replace]
    deletes both occurrences and the base URL the code uses for the requests
    is [https://iiif.example.org/p1]. *)
Theorem base_url_not_suffix_removal :
  let b := "https://iiif.example.org/info.json/p1" in
  exists d,
    read_descriptor (b +:+ "/info.json") (JObj (Samples.untiled 1000 1000)) = Ok d /\
    base_url d = "https://iiif.example.org/p1" /\
    base_url d <> b.
Proof.
  eexists. split; [reflexivity|]. split; [reflexivity|]. discriminate.
Qed.

(** ** The grid cells and their requests *)

(** The rows of the grid, each [nx] cells long, one after the other. *)
Lemma lookup_rows {A} (f : Z -> Z -> A) (nx a n k tx : Z) :
  0 <= k < n -> 0 <= tx < nx ->
  (seqZ a n ≫= (fun ty => (fun tx => f tx ty) <$> seqZ 0 nx)) !! Z.to_nat (k * nx + tx)
  = Some (f tx (a + k)).
Proof.
  intros [Hk0 Hkn] Htx. revert a n Hkn.
  pattern k. apply natlike_ind; [| |exact Hk0].
  - intros a n Hn. rewrite (seqZ_cons a n) by lia. rewrite bind_cons.
    rewrite lookup_app_l by (rewrite length_fmap, length_seqZ; lia).
    rewrite list_lookup_fmap, lookup_seqZ_lt by lia. simpl.
    do 2 f_equal; lia.
  - intros j Hj IH a n Hn. rewrite (seqZ_cons a n) by lia. rewrite bind_cons.
    assert (Hjnx : 0 <= j * nx) by nia.
    rewrite lookup_app_r by (rewrite length_fmap, length_seqZ; lia).
    rewrite length_fmap, length_seqZ.
    replace (Z.to_nat (Z.succ j * nx + tx) - Z.to_nat nx)%nat
      with (Z.to_nat (j * nx + tx)) by lia.
    rewrite IH by lia. do 2 f_equal; lia.
Qed.

Lemma tile_cells_lookup (w h t nx ny tx ty : Z) :
  0 <= tx < nx -> 0 <= ty < ny ->
  tile_cells w h t nx ny !! Z.to_nat (ty * nx + tx) = Some (cell w h t tx ty).
Proof.
  intros Htx Hty. unfold tile_cells.
  rewrite (lookup_rows (cell w h t) nx 0 ny ty tx) by lia.
  reflexivity.
Qed.

Lemma elem_of_tile_cells (w h t nx ny : Z) (c : region) :
  c ∈ tile_cells w h t nx ny <->
  exists tx ty, 0 <= tx < nx /\ 0 <= ty < ny /\ c = cell w h t tx ty.
Proof.
  unfold tile_cells. rewrite list_elem_of_bind. split.
  - intros (ty & Hc & Hty). apply list_elem_of_fmap in Hc as (tx & -> & Htx).
    apply elem_of_seqZ in Hty, Htx. exists tx, ty. repeat split; lia.
  - intros (tx & ty & Htx & Hty & ->). exists ty. split.
    + apply list_elem_of_fmap. exists tx. split; [reflexivity|].
      apply elem_of_seqZ. lia.
    + apply elem_of_seqZ. lia.
Qed.

Lemma length_tile_cells (w h t nx ny : Z) :
  length (tile_cells w h t nx ny) = (Z.to_nat ny * Z.to_nat nx)%nat.
Proof.
  unfold tile_cells.
  assert (H : forall n a, length (seqZ a (Z.of_nat n) ≫=
                (fun ty => (fun tx => cell w h t tx ty) <$> seqZ 0 nx))
              = (n * Z.to_nat nx)%nat).
  { induction n as [|n IH]; intros a.
    - reflexivity.
    - rewrite (seqZ_cons a) by lia. rewrite bind_cons, length_app, length_fmap, length_seqZ.
      replace (Z.pred (Z.of_nat (S n))) with (Z.of_nat n) by lia.
      rewrite IH. lia. }
  destruct (Z.le_gt_cases 0 ny) as [Hny|Hny].
  - rewrite <- (Z2Nat.id ny) at 1 by lia. apply H.
  - rewrite (seqZ_nil 0 ny) by lia. replace (Z.to_nat ny) with 0%nat by lia. reflexivity.
Qed.

Lemma append_assoc (s1 s2 s3 : string) : (s1 +:+ s2) +:+ s3 = s1 +:+ (s2 +:+ s3).
Proof.
  induction s1 as [|c s1 IH]; [reflexivity|].
  rewrite !app_String, IH. reflexivity.
Qed.

(** The futures are those of the cells, in the order of the cells. *)
Lemma submit_all_cells (E : env) (base : string) (cells : list region) :
  submit_all E (tile_url base <$> cells) (tile_position <$> cells)
  = future_of E base <$> cells.
Proof.
  unfold submit_all. induction cells as [|c cells IH]; [reflexivity|].
  simpl. f_equal. exact IH.
Qed.





(** ** The float quotient and its ceiling *)

Module PyFloatFacts.

Import PyFloat.

Lemma round_half_even_ge (n d N : Z) :
  0 < d -> N * d <= n -> N <= round_half_even n d.
Proof.
  intros Hd Hn. unfold round_half_even.
  assert (Hq : N <= n / d) by (apply Z.div_le_lower_bound; lia).
  destruct (2 * (n mod d) ?= d); [destruct (Z.even (n / d))| |]; lia.
Qed.

Lemma round_half_even_le (n d N : Z) :
  0 < d -> n <= N * d -> round_half_even n d <= N.
Proof.
  intros Hd Hn. unfold round_half_even.
  pose proof (Z.div_mod n d ltac:(lia)) as Hdm.
  pose proof (Z.mod_pos_bound n d Hd) as Hr.
  assert (Hq : n / d <= N) by (apply Z.div_le_upper_bound; lia).
  destruct (Z.eq_dec (n / d) N) as [Heq|Hne].
  - assert (Hr0 : n mod d = 0) by nia.
    rewrite Hr0. replace (2 * 0 ?= d) with Lt by (symmetry; apply Z.compare_lt_iff; lia).
    lia.
  - destruct (2 * (n mod d) ?= d); [destruct (Z.even (n / d))| |]; lia.
Qed.

(** The exponent found for [a / b] is not above its binary logarithm. *)
Lemma floor_log2_quot_lower (a b : Z) :
  0 < a -> 0 < b ->
  let k := floor_log2_quot a b in
  (0 <= k -> b * 2 ^ k <= a) /\ (k < 0 -> b <= a * 2 ^ (- k)).
Proof.
  intros Ha Hb. unfold floor_log2_quot.
  pose proof (Z.log2_spec a Ha) as [Hla _].
  pose proof (Z.log2_spec b Hb) as [_ Hlb].
  pose proof (Z.log2_nonneg a) as Hla0.
  pose proof (Z.log2_nonneg b) as Hlb0.
  set (la := Z.log2 a) in *. set (lb := Z.log2 b) in *. clearbody la lb.
  destruct (Z.leb_spec 0 (la - lb)) as [Hd|Hd].
  - destruct (Z.leb_spec (b * 2 ^ (la - lb)) a) as [Ht|Ht]; simpl.
    + split; [intros _; exact Ht | lia].
    + split.
      * intros Hk.
        assert (H2 : 2 ^ la = 2 ^ (Z.succ lb) * 2 ^ (la - lb - 1)).
        { rewrite <- Z.pow_add_r by lia. f_equal; lia. }
        assert (0 < 2 ^ (la - lb - 1)) by (apply Z.pow_pos_nonneg; lia).
        nia.
      * intros Hk. replace (- (la - lb - 1)) with 1 by lia.
        assert (la = lb) by lia. subst la.
        rewrite Z.pow_succ_r in Hlb by lia. lia.
  - destruct (Z.leb_spec b (a * 2 ^ (- (la - lb)))) as [Ht|Ht]; simpl.
    + split; [lia | intros _; exact Ht].
    + split; [lia|]. intros _.
      assert (H2 : 2 ^ (Z.succ lb) = 2 ^ la * 2 ^ (- (la - lb - 1))).
      { rewrite <- Z.pow_add_r by lia. f_equal; lia. }
      assert (0 < 2 ^ (- (la - lb - 1))) by (apply Z.pow_pos_nonneg; lia).
      nia.
Qed.

Lemma floor_log2_quot_upper (a b : Z) :
  0 < b -> floor_log2_quot a b <= Z.log2 a.
Proof.
  intros Hb. unfold floor_log2_quot.
  pose proof (Z.log2_nonneg b).
  destruct (if 0 <=? Z.log2 a - Z.log2 b then _ else _); lia.
Qed.

(** For a dividend of at most 52 bits, and a divisor the quotient cannot
    underflow on, [math.ceil(a / b)] is the exact ceiling. *)
Lemma ceil_true_div (a b : Z) :
  0 < a <= 2 ^ 52 -> 0 < b <= 2 ^ 1074 ->
  exists f, true_div a b = Ok f /\ ceil f = ceil_div a b.
Proof.
  intros [Ha Ha52] [Hb Hb1074].
  pose proof (floor_log2_quot_lower a b Ha Hb) as [Hk0 Hk1].
  pose proof (floor_log2_quot_upper a b Hb) as Hku.
  assert (Hla : Z.log2 a <= 52).
  { change 52 with (Z.log2 (2 ^ 52)). apply Z.log2_le_mono. exact Ha52. }
  unfold true_div.
  replace (b =? 0) with false by (symmetry; apply Z.eqb_neq; lia).
  replace (a =? 0) with false by (symmetry; apply Z.eqb_neq; lia).
  rewrite !Z.abs_eq by lia. unfold round_quot, prec, emin, emax.
  set (k := floor_log2_quot a b) in *.
  set (e := Z.max (k - (53 - 1)) (-1074)).
  set (m := if 0 <=? e then round_half_even a (b * 2 ^ e)
            else round_half_even (a * 2 ^ (- e)) b).
  simpl mant. simpl expo.
  assert (He : e <= 0) by lia.
  set (S := 2 ^ (- e)).
  assert (HS : 0 < S) by (apply Z.pow_pos_nonneg; lia).
  assert (HbS : b <= S).
  { unfold S, e. destruct (Z.max_spec (k - (53 - 1)) (-1074)) as [[_ ->]|[_ ->]].
    - exact Hb1074.
    - replace (- (k - (53 - 1))) with (52 - k) by lia.
      destruct (Z.le_gt_cases 0 k) as [Hk|Hk].
      + specialize (Hk0 Hk).
        assert (H2 : 2 ^ 52 = 2 ^ k * 2 ^ (52 - k)).
        { rewrite <- Z.pow_add_r by lia. f_equal; lia. }
        assert (0 < 2 ^ k) by (apply Z.pow_pos_nonneg; lia).
        assert (0 < 2 ^ (52 - k)) by (apply Z.pow_pos_nonneg; lia).
        nia.
      + specialize (Hk1 Hk).
        assert (H2 : 2 ^ (52 - k) = 2 ^ 52 * 2 ^ (- k)).
        { rewrite <- Z.pow_add_r by lia. f_equal; lia. }
        assert (0 < 2 ^ (- k)) by (apply Z.pow_pos_nonneg; lia).
        nia. }
  assert (Hm : m = round_half_even (a * S) b).
  { unfold m, S. destruct (Z.leb_spec 0 e) as [He0|He0]; [|reflexivity].
    assert (e = 0) as -> by lia. simpl. rewrite !Z.mul_1_r. reflexivity. }
  set (c := ceil_div a b).
  assert (Hc : (c - 1) * b < a <= c * b).
  { unfold c, ceil_div.
    pose proof (Z.div_mod (a + b - 1) b ltac:(lia)).
    pose proof (Z.mod_pos_bound (a + b - 1) b Hb). nia. }
  assert (Hc0 : 0 < c) by nia.
  assert (Hmu : m <= c * S).
  { rewrite Hm. apply round_half_even_le; [exact Hb | nia]. }
  assert (Hml : (c - 1) * S + 1 <= m).
  { rewrite Hm. apply round_half_even_ge; [exact Hb | nia]. }
  assert (Hc52 : c <= 2 ^ 52) by nia.
  assert (Hov : (2 ^ 1024 <=? m * 2 ^ e) = false).
  { apply Z.leb_gt. destruct (Z.eq_dec e 0) as [->|Hne].
    - unfold S in Hmu. simpl in Hmu. rewrite Z.pow_0_r.
      assert (2 ^ 52 < 2 ^ 1024) by (apply Z.pow_lt_mono_r; lia). lia.
    - rewrite Z.pow_neg_r by lia. rewrite Z.mul_0_r. apply Z.pow_pos_nonneg; lia. }
  rewrite Hov.
  eexists. split; [reflexivity|].
  unfold ceil. simpl mant. simpl expo.
  replace (Z.sgn a * Z.sgn b * m) with m
    by (rewrite (Z.sgn_pos a), (Z.sgn_pos b) by lia; lia).
  fold c. destruct (Z.leb_spec 0 e) as [He0|He0].
  - assert (e = 0) as He00 by lia.
    assert (S = 1) by (unfold S; rewrite He00; reflexivity).
    rewrite He00, Z.pow_0_r. nia.
  - fold S.
    pose proof (Z.div_mod (- m) S ltac:(lia)).
    pose proof (Z.mod_pos_bound (- m) S HS). nia.
Qed.

End PyFloatFacts.

(** ** The grid tiles the image *)

(** The index of a grid entry gives its column and its row. *)
Lemma tile_cells_lookup_inv (w h t nx ny : Z) (k : nat) (c : region) :
  tile_cells w h t nx ny !! k = Some c ->
  exists tx ty, 0 <= tx < nx /\ 0 <= ty < ny /\
                k = Z.to_nat (ty * nx + tx) /\ c = cell w h t tx ty.
Proof.
  intros Hk.
  pose proof (lookup_lt_Some _ _ _ Hk) as Hlt. rewrite length_tile_cells in Hlt.
  assert (Hnx : 0 < nx) by (destruct (Z.to_nat nx) eqn:?; lia).
  assert (Hny : 0 < ny) by (destruct (Z.to_nat ny) eqn:?; lia).
  set (kz := Z.of_nat k).
  assert (Hkz : 0 <= kz < ny * nx) by (unfold kz; nia).
  pose proof (Z.div_mod kz nx ltac:(lia)) as Hdm.
  pose proof (Z.mod_pos_bound kz nx Hnx) as Hmod.
  assert (Hdiv : 0 <= kz / nx < ny).
  { split; [apply Z.div_pos; lia | apply Z.div_lt_upper_bound; lia]. }
  assert (Hidx : k = Z.to_nat (kz / nx * nx + kz mod nx)) by (unfold kz in *; lia).
  exists (kz mod nx), (kz / nx). repeat split; try lia.
  rewrite Hidx in Hk. rewrite tile_cells_lookup in Hk by lia.
  injection Hk as <-. reflexivity.
Qed.

(** With [t > 0], the only column whose strip can hold [i] is [i / t]. *)
Lemma strip_unique (t tx i : Z) :
  0 < t -> tx * t <= i < tx * t + t -> tx = i / t.
Proof.
  intros Ht Hi. apply Z.div_unique with (r := i - tx * t); lia.
Qed.

Lemma ceil_div_bounds (a b : Z) :
  0 < b -> (ceil_div a b - 1) * b < a <= ceil_div a b * b.
Proof.
  intros Hb. unfold ceil_div.
  pose proof (Z.div_mod (a + b - 1) b ltac:(lia)).
  pose proof (Z.mod_pos_bound (a + b - 1) b Hb). nia.
Qed.

Lemma in_region_cell (w h t tx ty i j : Z) :
  in_region (cell w h t tx ty) i j = true <->
  (tx * t <= i < tx * t + t /\ i < w) /\ (ty * t <= j < ty * t + t /\ j < h).
Proof.
  unfold in_region, cell. simpl.
  rewrite !andb_true_iff, !Z.leb_le, !Z.ltb_lt. lia.
Qed.

(** Whatever the numbers of columns and rows, a cell of the grid does not
    reach outside the image: [min] clips it at the right and bottom edges. *)
Lemma cell_inside (w h t nx ny : Z) (c : region) (i j : Z) :
  c ∈ tile_cells w h t nx ny -> in_region c i j = true ->
  0 <= i < w /\ 0 <= j < h.
Proof.
  intros Hc Hin.
  apply elem_of_tile_cells in Hc as (tx & ty & Htx & Hty & ->).
  apply in_region_cell in Hin. nia.
Qed.

(** With the exact number of columns and rows the cells tile the image. *)
Lemma tile_cells_tile (w h t : Z) :
  0 < w -> 0 < h -> 0 < t ->
  tiles_exactly w h (tile_cells w h t (ceil_div w t) (ceil_div h t)).
Proof.
  intros Hw Hh Ht.
  pose proof (ceil_div_bounds w t Ht) as Hnx.
  pose proof (ceil_div_bounds h t Ht) as Hny.
  set (nx := ceil_div w t) in *. set (ny := ceil_div h t) in *. clearbody nx ny.
  split.
  - intros c i j. apply cell_inside.
  - intros i j Hi Hj.
    pose proof (Z.div_mod i t ltac:(lia)) as Hdi.
    pose proof (Z.mod_pos_bound i t Ht) as Hmi.
    pose proof (Z.div_mod j t ltac:(lia)) as Hdj.
    pose proof (Z.mod_pos_bound j t Ht) as Hmj.
    assert (Htx : 0 <= i / t < nx).
    { split; [apply Z.div_pos; lia|]. apply Z.div_lt_upper_bound; nia. }
    assert (Hty : 0 <= j / t < ny).
    { split; [apply Z.div_pos; lia|]. apply Z.div_lt_upper_bound; nia. }
    exists (Z.to_nat (j / t * nx + i / t)), (cell w h t (i / t) (j / t)).
    split; [apply tile_cells_lookup; assumption|]. split.
    + apply in_region_cell. lia.
    + intros k' c' Hk' Hin.
      apply tile_cells_lookup_inv in Hk' as (tx & ty & Htx' & Hty' & -> & ->).
      apply in_region_cell in Hin as [[Hx _] [Hy _]].
      apply strip_unique in Hx; [|exact Ht]. apply strip_unique in Hy; [|exact Ht].
      subst tx ty. reflexivity.
Qed.

(** In the range where the float quotient has the exact ceiling,
    [calculate_tile_grid] returns the exact counts. *)
Lemma calculate_tile_grid_exact (w h t : Z) :
  0 < w <= 2 ^ 52 -> 0 < h <= 2 ^ 52 -> 0 < t <= 2 ^ 1074 ->
  calculate_tile_grid (JInt w) (JInt h) (JInt t) = Ok (ceil_div w t, ceil_div h t).
Proof.
  intros Hw Hh Ht. unfold calculate_tile_grid, py_div.
  destruct (PyFloatFacts.ceil_true_div w t Hw Ht) as (fx & -> & <-).
  destruct (PyFloatFacts.ceil_true_div h t Hh Ht) as (fy & -> & <-).
  reflexivity.
Qed.

(** The grid of C1 on the sizes a float divides exactly: for a width and a
    height of at most [2 ^ 52] and a tile size of at most [2 ^ 1074], the
    rectangles of the tile requests cover the image with no overlap and no
    gap. *)
Theorem tile_grid_exact (w h t : Z) :
  0 < w <= 2 ^ 52 -> 0 < h <= 2 ^ 52 -> 0 < t <= 2 ^ 1074 ->
  exists nx ny,
    calculate_tile_grid (JInt w) (JInt h) (JInt t) = Ok (nx, ny) /\
    tiles_exactly w h (tile_cells w h t nx ny).
Proof.
  intros Hw Hh Ht. exists (ceil_div w t), (ceil_div h t). split.
  - apply calculate_tile_grid_exact; assumption.
  - apply tile_cells_tile; lia.
Qed.

Lemma tile_grid_exact_witness :
  exists nx ny,
    calculate_tile_grid (JInt 5300) (JInt 3000) (JInt 1000) = Ok (nx, ny) /\
    tiles_exactly 5300 3000 (tile_cells 5300 3000 1000 nx ny).
Proof.
  apply (tile_grid_exact 5300 3000 1000); lia.
Defined.

(** C1, at a tile size the float quotient underflows on. For the metadata
    [{"width": 3000, "height": 3000, "tiles": [{"width": 10 ** 400}]}] both
    [3000 / 10 ** 400] are [0.0]: the grid has no cell, no tile is requested,
    the pixel [(0, 0)] is in no rectangle, and the white canvas is saved as
    the image. *)
Theorem tile_grid_underflow :
  let md := JObj (Samples.tiled 3000 3000 (10 ^ 400)) in
  let E := Samples.server md (fun _ => Ok (Samples.solid 1000 1000 Samples.red))
             (fun l => l) in
  calculate_tile_grid (JInt 3000) (JInt 3000) (JInt (10 ^ 400)) = Ok (0, 0) /\
  tile_cells 3000 3000 (10 ^ 400) 0 0 = [] /\
  ~ tiles_exactly 3000 3000 (tile_cells 3000 3000 (10 ^ 400) 0 0) /\
  composite_image E Samples.info_url = Ok (Samples.solid 3000 3000 white).
Proof.
  intros md E. split; [|split; [|split]].
  - vm_compute. reflexivity.
  - reflexivity.
  - intros [_ Hcover]. destruct (Hcover 0 0) as (k & c & Hk & _); [lia|lia|].
    vm_compute in Hk. discriminate Hk.
  - vm_compute. reflexivity.
Qed.

(** ** The compositing loop *)









(** The counters count the futures that failed and those that did not. *)
Lemma foldl_composite_counts (fs : list future) (s : tally) :
  tiles_failed (foldl composite_step s fs)
  = tiles_failed s + Z.of_nat (length (filter (fun f : future => f.1 = None) fs)) /\
  tiles_downloaded (foldl composite_step s fs) + tiles_failed (foldl composite_step s fs)
  = tiles_downloaded s + tiles_failed s + Z.of_nat (length fs).
Proof.
  revert s. induction fs as [|f fs IH]; intros s; [simpl; lia|].
  simpl foldl. destruct (IH (composite_step s f)) as [-> ->].
  rewrite filter_cons.
  destruct f as [[im|] [url [x y]]]; simpl; lia.
Qed.

Lemma length_filter_futures (E : env) (base : string) (cells : list region) :
  length (filter (fun f : future => f.1 = None) (future_of E base <$> cells))
  = length (filter (failed E base) cells).
Proof.
  induction cells as [|c cells IH]; [reflexivity|].
  rewrite fmap_cons, !filter_cons. unfold failed at 1, future_of at 1. simpl.
  destruct (decide (download_tile E (tile_url base c) = None));
    destruct (decide (download_tile E (tile_url base c) = None)); try contradiction;
    simpl; rewrite IH; reflexivity.
Qed.

(** ** The composited image, pixel by pixel *)



(** ** The tiled download *)

Lemma py_div_Ok (a b : json) (f : PyFloat.t) :
  py_div a b = Ok f -> exists x y, a = JInt x /\ b = JInt y.
Proof.
  destruct a as [|x| | |]; try discriminate.
  destruct b as [|y| | |]; try discriminate.
  intros _. exists x, y. split; reflexivity.
Qed.

Lemma calculate_tile_grid_Ok (wv hv tv : json) (nx ny : Z) :
  calculate_tile_grid wv hv tv = Ok (nx, ny) ->
  exists w h t, wv = JInt w /\ hv = JInt h /\ tv = JInt t.
Proof.
  unfold calculate_tile_grid. intros H. invert_Ok.
  apply py_div_Ok in Ha as (w & t & -> & ->).
  apply py_div_Ok in Ha0 as (h & t' & -> & _).
  exists w, h, t. repeat split.
Qed.

(** The tiled download returns once the grid is computed and the canvas is
    allocated: what the tile requests do plays no part in that. *)
Lemma download_tiles_run (E : env) (d : descriptor) (w h t nx ny : Z) :
  width d = JInt w -> height d = JInt h -> tile_size d = JInt t ->
  calculate_tile_grid (JInt w) (JInt h) (JInt t) = Ok (nx, ny) ->
  0 <= w -> 0 <= h ->
  download_tiles E d
  = Ok (composite (mk_image w h (fun _ _ => white))
          (as_completed E
             (submit_all E (tile_url (base_url d) <$> tile_cells w h t nx ny)
                (tile_position <$> tile_cells w h t nx ny)))).
Proof.
  intros Hw Hh Ht Hgrid Hw0 Hh0. unfold download_tiles.
  rewrite Hw, Hh, Ht, Hgrid. simpl. unfold Image_new.
  replace (w <? 0) with false by (symmetry; apply Z.ltb_ge; lia).
  replace (h <? 0) with false by (symmetry; apply Z.ltb_ge; lia).
  reflexivity.
Qed.

Lemma download_tiles_Ok (E : env) (d : descriptor) (tl : tally) :
  download_tiles E d = Ok tl ->
  exists w h t nx ny,
    width d = JInt w /\ height d = JInt h /\ tile_size d = JInt t /\
    calculate_tile_grid (JInt w) (JInt h) (JInt t) = Ok (nx, ny) /\
    0 <= w /\ 0 <= h /\
    tl = composite (mk_image w h (fun _ _ => white))
           (as_completed E
              (submit_all E (tile_url (base_url d) <$> tile_cells w h t nx ny)
                 (tile_position <$> tile_cells w h t nx ny))).
Proof.
  intros H. unfold download_tiles in H.
  destruct (calculate_tile_grid (width d) (height d) (tile_size d)) as [[nx ny]|e] eqn:Hgrid;
    [|discriminate H].
  destruct (calculate_tile_grid_Ok _ _ _ _ _ Hgrid) as (w & h & t & Hw & Hh & Ht).
  rewrite Hw, Hh, Ht in H, Hgrid. simpl in H. unfold Image_new in H.
  destruct (Z.ltb_spec w 0); [discriminate H|].
  destruct (Z.ltb_spec h 0); [discriminate H|].
  simpl in H. injection H as <-.
  exists w, h, t, nx, ny. repeat split; assumption.
Qed.


(** ** The canvas *)



(** ** The order of arrival *)





(** ** Tiles that fail *)





(** ** When a descriptor is read and when an image is reported as done *)

(** The metadata from which lines 175-191 read a descriptor: a JSON object
    with ["width"] and ["height"], whose ["tiles"], if present, is a list
    that starts with an object. Everything else raises, whatever the sizes:
    a list or a string as metadata, a missing size, ["tiles"] that is
    [null], a number, a string, an object, an empty list, or a list that
    starts with anything but an object. *)
Theorem read_descriptor_iff (info_url : string) (metadata : json) (d : descriptor) :
  read_descriptor info_url metadata = Ok d <->
  exists m,
    metadata = JObj m /\
    m !! "width" = Some (width d) /\
    m !! "height" = Some (height d) /\
    base_url d = str_replace info_url "/info.json" EmptyString /\
    ((m !! "tiles" = None /\ tile_size d = JInt 256 /\ tiles_info d = JArr []) \/
     (exists t rest,
        m !! "tiles" = Some (JArr (JObj t :: rest)) /\
        tile_size d = default (JInt 256) (t !! "width") /\
        tiles_info d = JArr (JObj t :: rest))).
Proof.
  split.
  - intros H. apply read_descriptor_Ok in H
      as (m & tile0 & -> & Hw & Hh & H0 & Hts & Hb & Hti).
    exists m. repeat split; try assumption.
    destruct (m !! "tiles") as [tv|] eqn:Htv; simpl in *.
    + right. destruct tv as [| |s|l|o]; try discriminate.
      * destruct s; discriminate.
      * destruct l as [|x rest]; [discriminate|]. injection H0 as ->.
        exists tile0, rest. repeat split; assumption.
    + left. injection H0 as <-. rewrite lookup_empty in Hts. repeat split; assumption.
  - intros (m & -> & Hw & Hh & Hb & Htiles). destruct d as [wv hv ts b ti]. simpl in *.
    destruct Htiles as [(Ht & -> & ->)|(t & rest & Ht & -> & ->)].
    + rewrite (read_descriptor_untiled info_url m wv hv Hw Hh Ht), Hb. reflexivity.
    + rewrite (read_descriptor_tiled info_url m t wv hv rest Hw Hh Ht), Hb. reflexivity.
Qed.


Lemma composite_image_tiled (E : env) (info_url : string) (metadata : json) (d : descriptor) :
  fetch_iiif_metadata E info_url = Ok metadata ->
  read_descriptor info_url metadata = Ok d ->
  use_full_image d = Ok false ->
  composite_image E info_url = output_image <$> download_tiles E d.
Proof.
  intros Hf Hr Hu. unfold composite_image. rewrite Hf. simpl. rewrite Hr. simpl.
  rewrite Hu. reflexivity.
Qed.



(** ** Tile sizes that are zero, negative or no number *)







(** ** Sizes too large for a float *)

Lemma floor_log2_quot_ge (a b : Z) :
  Z.log2 a - Z.log2 b - 1 <= PyFloat.floor_log2_quot a b.
Proof.
  unfold PyFloat.floor_log2_quot.
  destruct (0 <=? Z.log2 a - Z.log2 b);
    [destruct (_ <=? a) | destruct (b <=? _)]; simpl; lia.
Qed.

(** A quotient of [2 ^ 1024] or more is no float: the division raises. *)
Lemma true_div_overflow (a b : Z) :
  0 < b -> b * 2 ^ 1024 <= a -> PyFloat.true_div a b = Raise OverflowError.
Proof.
  intros Hb Ha.
  assert (Hp : 0 < 2 ^ 1024) by (apply Z.pow_pos_nonneg; lia).
  assert (Ha0 : 0 < a) by nia.
  unfold PyFloat.true_div.
  destruct (Z.eqb_spec b 0) as [?|_]; [lia|].
  destruct (Z.eqb_spec a 0) as [?|_]; [lia|].
  rewrite (Z.abs_eq a), (Z.abs_eq b) by lia.
  pose proof (floor_log2_quot_ge a b) as Hge.
  pose proof (PyFloatFacts.floor_log2_quot_lower a b Ha0 Hb) as [Hlow _].
  assert (Hlog : Z.log2 b + 1024 <= Z.log2 a).
  { pose proof (Z.log2_mul_pow2 b 1024 Hb ltac:(lia)) as Hl.
    pose proof (Z.log2_le_mono _ _ Ha) as Hmono. lia. }
  unfold PyFloat.round_quot, PyFloat.prec, PyFloat.emin, PyFloat.emax.
  set (k := PyFloat.floor_log2_quot a b) in *. clearbody k.
  rewrite Z.max_l by lia.
  set (e := k - (53 - 1)).
  assert (He : 971 <= e) by (unfold e; lia).
  destruct (Z.leb_spec 0 e) as [_|?]; [|lia].
  cbn [PyFloat.mant PyFloat.expo].
  set (m := PyFloat.round_half_even a (b * 2 ^ e)).
  assert (Hpe : 0 < 2 ^ e) by (apply Z.pow_pos_nonneg; lia).
  assert (Hm : 2 ^ 1024 <= m * 2 ^ e).
  { destruct (Z.le_gt_cases e 1024) as [Hle|Hgt].
    - assert (HN : 2 ^ (1024 - e) <= m).
      { apply PyFloatFacts.round_half_even_ge; [nia|].
        replace (2 ^ (1024 - e) * (b * 2 ^ e)) with (b * (2 ^ (1024 - e) * 2 ^ e)) by ring.
        rewrite <- Z.pow_add_r by lia. replace (1024 - e + e) with 1024 by lia. exact Ha. }
      replace (2 ^ 1024) with (2 ^ (1024 - e) * 2 ^ e)
        by (rewrite <- Z.pow_add_r by lia; f_equal; lia).
      nia.
    - assert (HN : 2 ^ 52 <= m).
      { apply PyFloatFacts.round_half_even_ge; [nia|].
        replace (2 ^ 52 * (b * 2 ^ e)) with (b * (2 ^ e * 2 ^ 52)) by ring.
        rewrite <- Z.pow_add_r by lia. replace (e + 52) with k by (unfold e; lia).
        apply Hlow. lia. }
      assert (2 ^ 1024 <= 2 ^ e) by (apply Z.pow_le_mono_r; lia).
      assert (0 < 2 ^ 52) by (apply Z.pow_pos_nonneg; lia).
      nia. }
  destruct (Z.leb_spec (2 ^ 1024) (m * 2 ^ e)) as [_|?]; [reflexivity | lia].
Qed.

(** An image [2 ^ 1024] times the tile size wide, or wider, cannot be
    downloaded in tiles: [width / tile_size] raises [OverflowError] in
    [calculate_tile_grid], before any tile is requested, and the image is
    reported as failed. *)
Theorem oversized_image_fails (E : env) (info_url : string) (metadata : json)
    (d : descriptor) (w t : Z) :
  fetch_iiif_metadata E info_url = Ok metadata ->
  read_descriptor info_url metadata = Ok d ->
  use_full_image d = Ok false ->
  width d = JInt w -> tile_size d = JInt t ->
  0 < t -> t * 2 ^ 1024 <= w ->
  calculate_tile_grid (width d) (height d) (tile_size d) = Raise OverflowError
  /\ composite_image E info_url = Raise OverflowError
  /\ download_and_composite_image E info_url = false.
Proof.
  intros Hf Hr Hu Hw Ht Ht0 Hbig.
  assert (Hgrid : calculate_tile_grid (width d) (height d) (tile_size d) = Raise OverflowError).
  { unfold calculate_tile_grid. rewrite Hw, Ht. unfold py_div.
    rewrite (true_div_overflow w t Ht0 Hbig). reflexivity. }
  assert (Hrun : composite_image E info_url = Raise OverflowError).
  { rewrite (composite_image_tiled E info_url metadata d Hf Hr Hu).
    unfold download_tiles. rewrite Hgrid. reflexivity. }
  split; [exact Hgrid|]. split; [exact Hrun|].
  unfold download_and_composite_image. rewrite Hrun. reflexivity.
Qed.

Lemma oversized_image_fails_witness :
  let E := Samples.server (JObj (Samples.tiled (2 ^ 1024) 3000 1))
             (fun _ => Ok (Samples.solid 1 1 Samples.red)) (fun l => l) in
  composite_image E Samples.info_url = Raise OverflowError.
Proof.
  intros E.
  refine (proj1 (proj2 (oversized_image_fails E Samples.info_url
                          (JObj (Samples.tiled (2 ^ 1024) 3000 1))
                          (mk_descriptor (JInt (2 ^ 1024)) (JInt 3000) (JInt 1)
                             "https://iiif.example.org/page1" (JArr [JObj {["width" := JInt 1]}]))
                          (2 ^ 1024) 1 eq_refl eq_refl eq_refl eq_refl eq_refl _ _))); lia.
Defined.

(** ** The regions of the grid and the image they assemble *)

(** On sizes a float divides exactly the grid has [ceil] columns and rows,
    every region asked of the server is non-empty and at most a tile wide
    and high, every column but the last is a full tile wide and the last
    takes what is left of the width, and so for the rows. *)
Theorem grid_regions (w h t : Z) :
  0 < w <= 2 ^ 52 -> 0 < h <= 2 ^ 52 -> 0 < t <= 2 ^ 1074 ->
  exists nx ny,
    calculate_tile_grid (JInt w) (JInt h) (JInt t) = Ok (nx, ny) /\
    (nx - 1) * t < w <= nx * t /\ (ny - 1) * t < h <= ny * t /\
    length (tile_cells w h t nx ny) = Z.to_nat (nx * ny) /\
    forall tx ty, 0 <= tx < nx -> 0 <= ty < ny ->
      let c := cell w h t tx ty in
      0 < rw c <= t /\ 0 < rh c <= t /\
      rw c = (if tx <? nx - 1 then t else w - (nx - 1) * t) /\
      rh c = (if ty <? ny - 1 then t else h - (ny - 1) * t).
Proof.
  intros Hw Hh Ht. exists (ceil_div w t), (ceil_div h t).
  pose proof (ceil_div_bounds w t ltac:(lia)) as Hnx.
  pose proof (ceil_div_bounds h t ltac:(lia)) as Hny.
  split; [apply calculate_tile_grid_exact; assumption|].
  set (nx := ceil_div w t) in *. set (ny := ceil_div h t) in *. clearbody nx ny.
  split; [exact Hnx|]. split; [exact Hny|]. split.
  { rewrite length_tile_cells. nia. }
  intros tx ty Htx Hty. unfold cell. simpl.
  destruct (Z.ltb_spec tx (nx - 1)), (Z.ltb_spec ty (ny - 1)); nia.
Qed.

Lemma grid_regions_witness :
  exists nx ny,
    calculate_tile_grid (JInt 5300) (JInt 3000) (JInt 1000) = Ok (nx, ny) /\
    (nx - 1) * 1000 < 5300 <= nx * 1000.
Proof.
  destruct (grid_regions 5300 3000 1000) as (nx & ny & Hg & Hx & _); [lia | lia | lia |].
  exists nx, ny. split; [exact Hg | exact Hx].
Defined.

Lemma completed_counts (E : env) (base : string) (cells : list region) :
  (forall l, as_completed E l ≡ₚ l) ->
  let L := submit_all E (tile_url base <$> cells) (tile_position <$> cells) in
  length (filter (fun f : future => f.1 = None) (as_completed E L))
  = length (filter (failed E base) cells) /\
  length (as_completed E L) = length cells.
Proof.
  intros Hperm L. assert (HL : as_completed E L ≡ₚ L) by apply Hperm.
  rewrite HL. unfold L. rewrite submit_all_cells, length_filter_futures, length_fmap.
  split; reflexivity.
Qed.

(** Every future is counted once: at the end of the loop the two counters
    add up to the number of cells of the grid, [tiles_failed] is the number
    of cells whose request failed, and neither is negative. When a count of
    columns or rows is negative the grid is empty, and [total_tiles], their
    product, is not the number of tiles. *)
Theorem every_tile_counted (E : env) (d : descriptor) (tl : tally) :
  (forall l, as_completed E l ≡ₚ l) ->
  download_tiles E d = Ok tl ->
  exists w h t nx ny,
    width d = JInt w /\ height d = JInt h /\ tile_size d = JInt t /\
    calculate_tile_grid (JInt w) (JInt h) (JInt t) = Ok (nx, ny) /\
    let cells := tile_cells w h t nx ny in
    Z.of_nat (length cells) = Z.max 0 nx * Z.max 0 ny /\
    tiles_downloaded tl + tiles_failed tl = Z.of_nat (length cells) /\
    tiles_failed tl = Z.of_nat (length (filter (failed E (base_url d)) cells)) /\
    0 <= tiles_downloaded tl /\ 0 <= tiles_failed tl.
Proof.
  intros Hperm Hrun.
  apply download_tiles_Ok in Hrun
    as (w & h & t & nx & ny & Hw & Hh & Ht & Hgrid & Hw0 & Hh0 & ->).
  exists w, h, t, nx, ny. repeat (split; [assumption|]).
  intros cells.
  set (L := submit_all E (tile_url (base_url d) <$> cells) (tile_position <$> cells)).
  assert (HL : as_completed E L ≡ₚ L) by apply Hperm.
  destruct (foldl_composite_counts (as_completed E L)
              (mk_tally (mk_image w h (fun _ _ => white)) 0 0)) as [Hf Hd].
  destruct (completed_counts E (base_url d) cells Hperm) as [Hfl Hdl].
  fold L in Hfl, Hdl. rewrite Hfl in Hf. rewrite Hdl in Hd.
  fold (composite (mk_image w h (fun _ _ => white)) (as_completed E L)) in Hf, Hd.
  cbn [tiles_failed tiles_downloaded] in Hf, Hd.
  pose proof (length_filter (failed E (base_url d)) cells) as Hle.
  assert (Hlen : Z.of_nat (length cells) = Z.max 0 nx * Z.max 0 ny).
  { unfold cells. rewrite length_tile_cells, Nat2Z.inj_mul.
    replace (Z.of_nat (Z.to_nat nx)) with (Z.max 0 nx) by lia.
    replace (Z.of_nat (Z.to_nat ny)) with (Z.max 0 ny) by lia. lia. }
  fold cells. fold L. repeat split; lia.
Qed.

Lemma every_tile_counted_witness :
  let E := Samples.server (JObj (Samples.tiled 5300 3000 1000))
             (fun _ => Raise RequestException) reverse in
  let d := mk_descriptor (JInt 5300) (JInt 3000) (JInt 1000)
             "https://iiif.example.org/page1"
             (JArr [JObj {["width" := JInt 1000]}]) in
  exists tl, download_tiles E d = Ok tl /\ tiles_downloaded tl + tiles_failed tl = 18.
Proof.
  intros E d.
  assert (Hrun : exists tl, download_tiles E d = Ok tl).
  { eexists. apply (download_tiles_run E d 5300 3000 1000 6 3);
      [reflexivity | reflexivity | reflexivity | vm_compute; reflexivity | lia | lia]. }
  destruct Hrun as [tl Hrun]. exists tl. split; [exact Hrun|].
  destruct (every_tile_counted E d tl)
    as (w & h & t & nx & ny & Hw & Hh & Ht & Hgrid & Hlen & Hsum & _).
  - intros l. apply reverse_Permutation.
  - exact Hrun.
  - injection Hw as <-. injection Hh as <-. injection Ht as <-.
    assert (Hnxy : Ok (nx, ny) = Ok (6, 3) :> result (Z * Z))
      by (rewrite <- Hgrid; vm_compute; reflexivity).
    injection Hnxy as -> ->.
    rewrite Hsum, Hlen. reflexivity.
Defined.






(** ** The URLs of the requests *)

Lemma nil_append (s : string) : EmptyString +:+ s = s.
Proof. reflexivity. Qed.

Lemma append_nil_r (s : string) : s +:+ EmptyString = s.
Proof. induction s as [|c s IH]; [reflexivity | now rewrite app_String, IH]. Qed.

Lemma length_append (s1 s2 : string) :
  String.length (s1 +:+ s2) = (String.length s1 + String.length s2)%nat.
Proof.
  induction s1 as [|a s1 IH]; [reflexivity|].
  rewrite app_String. simpl. now rewrite IH.
Qed.

Lemma append_inv_tail (t s1 s2 : string) : s1 +:+ t = s2 +:+ t -> s1 = s2.
Proof.
  revert s2. induction s1 as [|a s1 IH]; intros [|b s2] H;
    rewrite ?app_String, ?nil_append in H.
  - reflexivity.
  - exfalso. apply (f_equal String.length) in H. simpl in H.
    rewrite length_append in H. lia.
  - exfalso. apply (f_equal String.length) in H. simpl in H.
    rewrite length_append in H. lia.
  - injection H as -> H. f_equal. exact (IH _ H).
Qed.

Lemma occurs_app (c : Ascii.ascii) (s1 s2 : string) :
  occurs c (s1 +:+ s2) = occurs c s1 || occurs c s2.
Proof.
  induction s1 as [|a s1 IH]; [reflexivity|].
  rewrite app_String. simpl. rewrite IH. apply orb_assoc.
Qed.

(** [str] is read back by the parser of decimal numerals. *)
Lemma str_inj (a b : Z) : str a = str b -> a = b.
Proof.
  unfold str. intros H.
  assert (Hread : forall z, NilZero.int_of_string (NilZero.string_of_int (Z.to_int z))
                            = Some (Z.to_int z)).
  { intros z. apply NilZero.isi; destruct z; simpl; try discriminate;
      intros [= Hnil]; exact (DecimalPos.Unsigned.to_uint_nonnil _ Hnil). }
  pose proof (Hread a) as Ha. rewrite H, Hread in Ha.
  injection Ha as Ha. symmetry. exact (DecimalZ.to_int_inj _ _ Ha).
Qed.

Lemma digits_no_comma (d : Decimal.uint) :
  occurs ","%char (NilEmpty.string_of_uint d) = false.
Proof. induction d; simpl; [reflexivity | exact IHd ..]. Qed.

Lemma str_no_comma (n : Z) : occurs ","%char (str n) = false.
Proof.
  unfold str.
  assert (Hu : forall d, occurs ","%char (NilZero.string_of_uint d) = false).
  { intros d. destruct d; try exact (digits_no_comma _). reflexivity. }
  destruct (Z.to_int n) as [d|d]; simpl; apply Hu.
Qed.

(** A string is cut at its first [c] in one way only. *)
Lemma split_unique (c : Ascii.ascii) (a a' b b' : string) :
  occurs c a = false -> occurs c a' = false ->
  a +:+ String c b = a' +:+ String c b' -> a = a' /\ b = b'.
Proof.
  revert a'. induction a as [|x a IH]; intros [|x' a'] Ha Ha' H;
    rewrite ?app_String, ?nil_append in H.
  - injection H as ->. split; reflexivity.
  - injection H as <- _. simpl in Ha'. rewrite Ascii.eqb_refl in Ha'. discriminate.
  - injection H as -> _. simpl in Ha. rewrite Ascii.eqb_refl in Ha. discriminate.
  - injection H as <- H. simpl in Ha, Ha'.
    apply orb_false_iff in Ha as [_ Ha]. apply orb_false_iff in Ha' as [_ Ha'].
    destruct (IH a' Ha Ha' H) as [-> ->]. split; reflexivity.
Qed.

(** The URL of a tile request determines the offset of the tile. *)
Lemma tile_url_position (base : string) (c1 c2 : region) :
  tile_url base c1 = tile_url base c2 -> tile_position c1 = tile_position c2.
Proof.
  unfold tile_url, tile_position. intros H.
  repeat (rewrite append_assoc in H || rewrite app_String in H || rewrite nil_append in H).
  apply String.app_inj in H. injection H as H.
  apply split_unique in H as [Hx H]; try apply str_no_comma.
  apply split_unique in H as [Hy _]; try apply str_no_comma.
  apply str_inj in Hx, Hy. congruence.
Qed.

Lemma NoDup_tile_positions (w h t nx ny : Z) :
  t <> 0 -> NoDup (tile_position <$> tile_cells w h t nx ny).
Proof.
  intros Ht. apply NoDup_alt. intros i j p Hi Hj.
  rewrite list_lookup_fmap in Hi, Hj.
  destruct (tile_cells w h t nx ny !! i) as [ci|] eqn:Hci; [|discriminate].
  destruct (tile_cells w h t nx ny !! j) as [cj|] eqn:Hcj; [|discriminate].
  apply tile_cells_lookup_inv in Hci as (tx & ty & Htx & Hty & -> & ->).
  apply tile_cells_lookup_inv in Hcj as (tx' & ty' & Htx' & Hty' & -> & ->).
  simpl in Hi, Hj. rewrite <- Hj in Hi. injection Hi as Hx Hy.
  apply Z.mul_cancel_r in Hx, Hy; [|exact Ht..]. subst. reflexivity.
Qed.

(** The loops of lines 224-237 never plan the same request twice: for a tile
    size other than zero, whatever the image size and the grid, the URLs in
    [tile_urls] are pairwise different and so are the offsets in
    [tile_positions]. No tile is fetched twice and no two tiles are pasted at
    the same place. *)
Theorem tile_requests_distinct (base : string) (w h t nx ny : Z) :
  t <> 0 ->
  let cells := tile_cells w h t nx ny in
  NoDup (tile_url base <$> cells) /\ NoDup (tile_position <$> cells).
Proof.
  intros Ht cells. pose proof (NoDup_tile_positions w h t nx ny Ht) as Hpos.
  split; [|exact Hpos].
  apply NoDup_alt. intros i j u Hi Hj.
  rewrite list_lookup_fmap in Hi, Hj. fold cells in Hpos.
  destruct (cells !! i) as [ci|] eqn:Hci; [|discriminate].
  destruct (cells !! j) as [cj|] eqn:Hcj; [|discriminate].
  injection Hi as Hi. injection Hj as Hj. rewrite <- Hj in Hi.
  apply tile_url_position in Hi.
  apply (proj1 (NoDup_alt _) Hpos i j (tile_position ci));
    rewrite list_lookup_fmap; [rewrite Hci | rewrite Hcj, Hi]; reflexivity.
Qed.

Lemma tile_requests_distinct_witness :
  let cells := tile_cells 5300 3000 1000 6 3 in
  NoDup (tile_url "https://iiif.example.org/page1" <$> cells)
  /\ NoDup (tile_position <$> cells).
Proof.
  apply (tile_requests_distinct "https://iiif.example.org/page1" 5300 3000 1000 6 3). lia.
Defined.

Lemma replace_absent (old new : string) (s : string) :
  contains s old = false -> str_replace s old new = s.
Proof.
  unfold str_replace. induction s as [|c s IH]; intros H; [reflexivity|].
  change (contains (String c s) old) with (String.prefix old (String c s) || contains s old) in H.
  apply orb_false_iff in H as [Hhd Htl].
  rewrite replace_from_here, Hhd. f_equal. exact (IH Htl).
Qed.

(** Line 182 leaves a metadata URL in which ["/info.json"] does not occur as
    it is: the base URL is the metadata URL itself, and the full image is
    requested at the metadata URL followed by [/full/full/0/default.png]. The
    scraper lets such URLs through, since line 103 asks for ["info.json"]
    without the slash. *)
Theorem base_url_unchanged (info_url : string) (metadata : json) (d : descriptor) :
  contains info_url "/info.json" = false ->
  read_descriptor info_url metadata = Ok d ->
  base_url d = info_url
  /\ full_url (base_url d) = info_url +:+ "/full/full/0/default.png".
Proof.
  intros Hocc Hread.
  apply read_descriptor_Ok in Hread as (m & tile0 & _ & _ & _ & _ & _ & Hbase & _).
  rewrite Hbase, (replace_absent _ _ _ Hocc). split; reflexivity.
Qed.

Lemma base_url_unchanged_witness :
  let info_url := "https://iiif.example.org/image?id=7&format=info.json" in
  exists d,
    read_descriptor info_url (JObj (Samples.untiled 1000 1000)) = Ok d
    /\ base_url d = info_url
    /\ full_url (base_url d) = info_url +:+ "/full/full/0/default.png".
Proof.
  intros info_url. eexists. split; [reflexivity|].
  apply (base_url_unchanged info_url (JObj (Samples.untiled 1000 1000))); reflexivity.
Defined.

(** ** The names of the output files *)

Lemma uint_of_string_zeros (k : nat) (s : string) (d : Decimal.uint) :
  NilEmpty.uint_of_string s = Some d ->
  exists d', NilEmpty.uint_of_string (Nat.iter k (String "0"%char) s) = Some d'
             /\ Z.of_uint d' = Z.of_uint d.
Proof.
  intros Hs. induction k as [|k [d' [IH Hd']]]; simpl.
  - eauto.
  - rewrite IH. simpl. eexists; split; [reflexivity|]. exact Hd'.
Qed.

Lemma iter_zeros_nonempty (k : nat) (s : string) :
  s <> EmptyString -> Nat.iter k (String "0"%char) s <> EmptyString.
Proof. destruct k; simpl; [trivial | discriminate]. Qed.

(** The zeros that [zfill] puts before a numeral do not change the number
    it is read as. *)
Lemma zfill_digits (width : nat) (d : Decimal.uint) :
  exists d', NilZero.uint_of_string (zfill width (NilZero.string_of_uint d)) = Some d'
             /\ Z.of_uint d' = Z.of_uint d.
Proof.
  unfold zfill.
  set (s := NilZero.string_of_uint d).
  assert (Hs : exists d0, NilEmpty.uint_of_string s = Some d0 /\ Z.of_uint d0 = Z.of_uint d).
  { subst s. destruct d;
      try (eexists; split;
           [match goal with
            | |- NilEmpty.uint_of_string (NilZero.string_of_uint ?x) = _ => exact (NilEmpty.usu x)
            end | reflexivity]).
    exists (D0 Nil). split; reflexivity. }
  assert (Hne : s <> EmptyString) by (subst s; destruct d; discriminate).
  destruct Hs as [d0 [Hs Hd0]].
  destruct (uint_of_string_zeros (width - String.length s) s d0 Hs) as [d' [H1 H2]].
  exists d'. split; [|congruence].
  pose proof (iter_zeros_nonempty (width - String.length s) s Hne) as Hz.
  unfold NilZero.uint_of_string.
  destruct (Nat.iter _ _ s); [contradiction | exact H1].
Qed.

Lemma int_of_digits (s : string) (d : Decimal.uint) :
  NilZero.uint_of_string s = Some d -> NilZero.int_of_string s = Some (Pos d).
Proof.
  destruct s as [|a s]; [discriminate|].
  unfold NilZero.int_of_string, NilZero.uint_of_string.
  case Ascii.eqb_spec.
  - intros ->. simpl. destruct (NilEmpty.uint_of_string s); discriminate.
  - intros _ ->. reflexivity.
Qed.

(** What [{idx:03d}] prints is read back as [idx]. *)
Lemma format_03d_read (idx : Z) :
  Z.of_int <$> NilZero.int_of_string (format_03d idx) = Some idx.
Proof.
  unfold format_03d, str.
  destruct idx as [|p|p];
    [change (0 <? 0) with false | change (Z.pos p <? 0) with false
     | change (Z.neg p <? 0) with true]; cbv iota.
  - reflexivity.
  - destruct (zfill_digits 3 (Pos.to_uint p)) as [d' [H1 H2]].
    change (NilZero.string_of_int (Z.to_int (Z.pos p)))
      with (NilZero.string_of_uint (Pos.to_uint p)).
    rewrite (int_of_digits _ _ H1). simpl. rewrite H2.
    change (Z.of_uint (Pos.to_uint p)) with (Z.of_int (Z.to_int (Z.pos p))).
    f_equal. apply DecimalZ.of_to.
  - destruct (zfill_digits 2 (Pos.to_uint p)) as [d' [H1 H2]].
    change (NilZero.string_of_int (Z.to_int (- Z.neg p)))
      with (NilZero.string_of_uint (Pos.to_uint p)).
    unfold NilZero.int_of_string. simpl Ascii.eqb. cbv iota.
    rewrite H1. simpl. rewrite H2.
    change (- Z.of_uint (Pos.to_uint p)) with (Z.of_int (Z.to_int (Z.neg p))).
    f_equal. apply DecimalZ.of_to.
Qed.

Lemma format_03d_inj (i j : Z) : format_03d i = format_03d j -> i = j.
Proof.
  intros H. pose proof (format_03d_read i) as Hi.
  rewrite H, format_03d_read in Hi. congruence.
Qed.

Lemma output_filename_eq (i j : Z) : output_filename i = output_filename j -> i = j.
Proof.
  unfold output_filename. intros H.
  apply String.app_inj, append_inv_tail, format_03d_inj in H. exact H.
Qed.

(** Different indices give different file names, for every index: also
    above 999, where [{idx:03d}] prints more than three digits. The images
    of one page are never saved over one another. *)
Theorem output_filename_distinct (i j : Z) :
  i <> j -> output_filename i <> output_filename j.
Proof.
  intros Hne H. exact (Hne (output_filename_eq i j H)).
Qed.

Lemma output_filename_distinct_witness :
  output_filename 7 = "image_007.png"
  /\ output_filename 1007 = "image_1007.png"
  /\ output_filename 7 <> output_filename 1007.
Proof.
  split; [reflexivity|]. split; [reflexivity|].
  apply (output_filename_distinct 7 1007). lia.
Defined.

(** ** The manifests of a page *)

(** *** The scans of the tileSources pattern *)

Lemma strip_prefix_Some (p s r : string) :
  strip_prefix p s = Some r <-> s = p +:+ r.
Proof.
  revert s. induction p as [|a p IH]; intros s; simpl.
  - rewrite nil_append. split; [intros [= ->]; reflexivity | intros ->; reflexivity].
  - rewrite app_String. destruct s as [|b s]; [split; discriminate|].
    destruct (Ascii.eqb_spec a b) as [->|Hne].
    + rewrite IH. split; [intros ->; reflexivity | intros [= ->]; reflexivity].
    + split; [discriminate | intros [= Hab _]; congruence].
Qed.

Lemma skip_spaces_split (s : string) :
  exists ws, all_spaces ws = true /\ s = ws +:+ skip_spaces s.
Proof.
  induction s as [|c s [ws [Hws Hs]]]; simpl.
  - exists EmptyString. split; reflexivity.
  - destruct (is_space c) eqn:Hc.
    + exists (String c ws). simpl. rewrite Hc, Hws, app_String.
      split; [reflexivity | now f_equal].
    + exists EmptyString. split; reflexivity.
Qed.

Lemma skip_spaces_app (ws : string) (c : Ascii.ascii) (r : string) :
  all_spaces ws = true -> is_space c = false ->
  skip_spaces (ws +:+ String c r) = String c r.
Proof.
  intros Hws Hc. induction ws as [|a ws IH]; simpl in Hws.
  - rewrite nil_append. simpl. now rewrite Hc.
  - apply andb_true_iff in Hws as [Ha Hws]. rewrite app_String. simpl.
    rewrite Ha. exact (IH Hws).
Qed.

Lemma split_at_Some (c : Ascii.ascii) (s before after : string) :
  split_at c s = Some (before, after)
  <-> s = before +:+ String c after /\ occurs c before = false.
Proof.
  revert before. induction s as [|a s IH]; intros before; simpl.
  - split; [discriminate | intros [H _]; destruct before; discriminate].
  - destruct (Ascii.eqb_spec a c) as [->|Hne].
    + split.
      * intros [= <- <-]. split; reflexivity.
      * intros [H Hocc]. destruct before as [|b before];
          rewrite ?app_String, ?nil_append in H.
        -- now injection H as ->.
        -- injection H as <- _. simpl in Hocc. rewrite Ascii.eqb_refl in Hocc. discriminate.
    + destruct (split_at c s) as [[b0 a0]|] eqn:Hs; simpl.
      * split.
        -- intros [= <- <-]. destruct (proj1 (IH b0) eq_refl) as [-> Hocc].
           split; [reflexivity|]. simpl. rewrite Hocc.
           destruct (Ascii.eqb_spec a c); [contradiction | reflexivity].
        -- intros [H Hocc]. destruct before as [|b before];
             rewrite ?app_String, ?nil_append in H.
           ++ injection H as -> _. contradiction.
           ++ injection H as <- H. simpl in Hocc. apply orb_false_iff in Hocc as [_ Hocc].
              pose proof (proj2 (IH before) (conj H Hocc)) as Heq.
              injection Heq as -> ->. reflexivity.
      * split; [discriminate|].
        intros [H Hocc]. destruct before as [|b before];
          rewrite ?app_String, ?nil_append in H.
        -- injection H as -> _. contradiction.
        -- injection H as <- H. simpl in Hocc. apply orb_false_iff in Hocc as [_ Hocc].
           pose proof (proj2 (IH before) (conj H Hocc)) as Heq. discriminate.
Qed.

(** What a match of the pattern at the start of [s] says about [s]. *)
Lemma match_tile_sources_Some (s sources_str : string) :
  match_tile_sources s = Some sources_str ->
  exists ws1 ws2 post : string,
    all_spaces ws1 = true /\ all_spaces ws2 = true
    /\ occurs "]"%char sources_str = false
    /\ s = "tileSources" +:+ ws1 +:+ ":" +:+ ws2 +:+ "[" +:+ sources_str +:+ "]" +:+ post.
Proof.
  unfold match_tile_sources. intros H.
  destruct (strip_prefix "tileSources" s) as [r1|] eqn:H1; [|discriminate].
  cbn [mbind option_bind] in H.
  destruct (strip_prefix ":" (skip_spaces r1)) as [r2|] eqn:H2; [|discriminate].
  cbn [mbind option_bind] in H.
  destruct (strip_prefix "[" (skip_spaces r2)) as [r3|] eqn:H3; [|discriminate].
  cbn [mbind option_bind] in H.
  destruct (split_at "]"%char r3) as [[b a]|] eqn:H4; [|discriminate].
  injection H as <-.
  apply strip_prefix_Some in H1, H2, H3. apply split_at_Some in H4 as [H4 Hocc].
  destruct (skip_spaces_split r1) as [ws1 [Hws1 Hr1]].
  destruct (skip_spaces_split r2) as [ws2 [Hws2 Hr2]].
  exists ws1, ws2, a. repeat split; try assumption.
  rewrite H1, Hr1, H2, Hr2, H3, H4. reflexivity.
Qed.

(** The pattern matches a text of its shape, and group 1 is what stands
    before the first closing bracket. *)
Lemma match_tile_sources_written (ws1 ws2 sources_str post : string) :
  all_spaces ws1 = true -> all_spaces ws2 = true ->
  occurs "]"%char sources_str = false ->
  match_tile_sources
    ("tileSources" +:+ ws1 +:+ ":" +:+ ws2 +:+ "[" +:+ sources_str +:+ "]" +:+ post)
  = Some sources_str.
Proof.
  intros Hws1 Hws2 Hocc. unfold match_tile_sources.
  rewrite (proj2 (strip_prefix_Some "tileSources" _ _) eq_refl).
  cbn [mbind option_bind].
  change (":" +:+ ws2 +:+ "[" +:+ sources_str +:+ "]" +:+ post)
    with (String ":"%char (ws2 +:+ "[" +:+ sources_str +:+ "]" +:+ post)).
  rewrite (skip_spaces_app ws1) by (assumption || reflexivity).
  change (strip_prefix ":" (String ":"%char ?r)) with (Some r).
  cbn [mbind option_bind].
  change ("[" +:+ sources_str +:+ "]" +:+ post)
    with (String "["%char (sources_str +:+ "]" +:+ post)).
  rewrite (skip_spaces_app ws2) by (assumption || reflexivity).
  change (strip_prefix "[" (String "["%char ?r)) with (Some r).
  cbn [mbind option_bind].
  rewrite (proj2 (split_at_Some "]"%char (sources_str +:+ "]" +:+ post) sources_str post)
             (conj eq_refl Hocc)).
  reflexivity.
Qed.

(** The pattern of line 93 matches at the start of a text exactly when the
    text is the word [tileSources], any white space, a colon, any white
    space, an opening bracket, some text without a closing bracket, a closing
    bracket, and anything after that. Group 1 is the text between the
    brackets: it ends at the first closing bracket, also when that bracket
    stands inside a string or closes an inner array. *)
Theorem match_tile_sources_iff (s sources_str : string) :
  match_tile_sources s = Some sources_str
  <-> exists ws1 ws2 post : string,
        all_spaces ws1 = true /\ all_spaces ws2 = true
        /\ occurs "]"%char sources_str = false
        /\ s = "tileSources" +:+ ws1 +:+ ":" +:+ ws2 +:+ "[" +:+ sources_str +:+ "]" +:+ post.
Proof.
  split.
  - apply match_tile_sources_Some.
  - intros (ws1 & ws2 & post & Hws1 & Hws2 & Hocc & ->).
    apply match_tile_sources_written; assumption.
Qed.

Lemma search_here (s sources_str : string) :
  match_tile_sources s = Some sources_str -> search_tile_sources s = Some sources_str.
Proof. intros H. destruct s; cbn [search_tile_sources]; rewrite H; reflexivity. Qed.

Lemma search_next (c : Ascii.ascii) (s : string) :
  match_tile_sources (String c s) = None ->
  search_tile_sources (String c s) = search_tile_sources s.
Proof. intros H. cbn [search_tile_sources]. rewrite H. reflexivity. Qed.

Ltac keyword_step v H :=
  destruct v as [|? v];
  [ reflexivity
  | rewrite app_String; rewrite prefix_String in H; cbn [strip_prefix];
    match goal with
    | |- (if Ascii.eqb ?a ?b then _ else _) = None =>
        destruct (Ascii.eqb_spec a b) as [<-|?]; [|reflexivity]
    end;
    match type of H with
    | (if ?D then _ else _) = false => destruct D; [|congruence]
    end ].

(** A match of the keyword cannot begin in [v] and end in a following
    keyword: no end of [tileSources] is also a beginning of it. *)
Lemma keyword_no_straddle (c : Ascii.ascii) (v r : string) :
  String.prefix "tileSources" (String c v) = false ->
  strip_prefix "tileSources" (String c v +:+ "tileSources" +:+ r) = None.
Proof.
  intros H.
  rewrite app_String; rewrite prefix_String in H; cbn [strip_prefix].
  destruct (Ascii.eqb_spec "t" c) as [<-|?]; [|reflexivity].
  destruct (Ascii.ascii_dec "t" "t"); [|congruence].
  do 10 keyword_step v H.
  destruct v; discriminate H.
Qed.

(** The search passes over a text in which the keyword does not occur. *)
Lemma search_skips (pre r : string) :
  contains pre "tileSources" = false ->
  search_tile_sources (pre +:+ "tileSources" +:+ r) = search_tile_sources ("tileSources" +:+ r).
Proof.
  induction pre as [|c pre IH]; intros Hocc; [reflexivity|].
  change (contains (String c pre) "tileSources")
    with (String.prefix "tileSources" (String c pre) || contains pre "tileSources") in Hocc.
  apply orb_false_iff in Hocc as [Hhd Htl].
  pose proof (keyword_no_straddle c pre r Hhd) as Hno.
  rewrite app_String in Hno |- *.
  rewrite search_next; [exact (IH Htl)|].
  unfold match_tile_sources. rewrite Hno. reflexivity.
Qed.

Lemma search_origin (s sources_str : string) :
  search_tile_sources s = Some sources_str ->
  exists before after, s = before +:+ sources_str +:+ after
                       /\ occurs "]"%char sources_str = false.
Proof.
  induction s as [|c s IH]; cbn [search_tile_sources].
  - destruct (match_tile_sources EmptyString) eqn:Hm; [|discriminate].
    apply match_tile_sources_Some in Hm as (? & ? & ? & _ & _ & _ & Hs). discriminate Hs.
  - destruct (match_tile_sources (String c s)) as [b|] eqn:Hm.
    + intros [= ->].
      apply match_tile_sources_Some in Hm as (ws1 & ws2 & post & _ & _ & Hocc & Hs).
      exists ("tileSources" +:+ ws1 +:+ ":" +:+ ws2 +:+ "["), ("]" +:+ post).
      split; [|exact Hocc]. rewrite Hs.
      repeat (rewrite append_assoc || rewrite app_String || rewrite nil_append).
      reflexivity.
    + intros H. destruct (IH H) as (before & after & -> & Hocc).
      exists (String c before), after. split; [reflexivity | exact Hocc].
Qed.

(** *** The scan of the URL pattern *)

Lemma span_unquoted_split (s u rest : string) :
  span_unquoted s = (u, rest) ->
  s = u +:+ rest /\ unquoted u = true
  /\ match rest with EmptyString => True | String q _ => is_quote q = true end.
Proof.
  revert u. induction s as [|c s IH]; intros u; simpl.
  - intros [= <- <-]. repeat split.
  - destruct (is_quote c) eqn:Hc.
    + intros [= <- <-]. repeat split. exact Hc.
    + destruct (span_unquoted s) as [u0 r0]. intros [= <- <-].
      destruct (IH u0 eq_refl) as (-> & Hu & Hq). repeat split; [|exact Hq].
      simpl. rewrite Hc, Hu. reflexivity.
Qed.

Lemma span_unquoted_app (u : string) (q : Ascii.ascii) (s : string) :
  unquoted u = true -> is_quote q = true ->
  span_unquoted (u +:+ String q s) = (u, String q s).
Proof.
  intros Hu Hq. induction u as [|c u IH].
  - rewrite nil_append. simpl. rewrite Hq. reflexivity.
  - simpl in Hu. apply andb_true_iff in Hu as [Hc Hu].
    rewrite app_String. simpl. rewrite (IH Hu).
    destruct (is_quote c); [discriminate | reflexivity].
Qed.

Lemma match_quoted_Some (s u rest : string) :
  match_quoted s = Some (u, rest) ->
  exists q1 q2, s = String q1 (u +:+ String q2 rest)
                /\ is_quote q1 = true /\ is_quote q2 = true
                /\ unquoted u = true /\ u <> EmptyString.
Proof.
  unfold match_quoted. destruct s as [|q1 r]; [discriminate|].
  destruct (is_quote q1) eqn:Hq1; [|discriminate].
  destruct (span_unquoted r) as [[|c u0] [|q2 rest0]] eqn:Hspan; try discriminate.
  intros [= <- <-]. apply span_unquoted_split in Hspan as (-> & Hu & Hq2).
  exists q1, q2. repeat split; [assumption.. | discriminate].
Qed.

Lemma match_quoted_literal (q1 q2 : Ascii.ascii) (u s : string) :
  is_quote q1 = true -> is_quote q2 = true -> unquoted u = true -> u <> EmptyString ->
  match_quoted (String q1 (u +:+ String q2 s)) = Some (u, s).
Proof.
  intros Hq1 Hq2 Hu Hne. unfold match_quoted.
  rewrite Hq1, (span_unquoted_app u q2 s Hu Hq2).
  destruct u; [contradiction | reflexivity].
Qed.

Lemma find_quoted_pass (u : string) (n : nat) (s : string) :
  find_quoted (String.length u + n) (u +:+ s) = find_quoted n s.
Proof.
  induction u as [|c u IH]; [reflexivity|].
  rewrite app_String. exact IH.
Qed.

Lemma find_quoted_literal (q1 q2 : Ascii.ascii) (u s : string) :
  is_quote q1 = true -> is_quote q2 = true -> unquoted u = true -> u <> EmptyString ->
  find_quoted 0 (String q1 (u +:+ String q2 s)) = u :: find_quoted 0 s.
Proof.
  intros Hq1 Hq2 Hu Hne. cbn [find_quoted].
  rewrite (match_quoted_literal q1 q2 u s Hq1 Hq2 Hu Hne).
  f_equal. rewrite find_quoted_pass. reflexivity.
Qed.

Lemma find_quoted_lead (lead s : string) :
  unquoted lead = true -> find_quoted 0 (lead +:+ s) = find_quoted 0 s.
Proof.
  induction lead as [|c lead IH]; intros Hl; [reflexivity|].
  simpl in Hl. apply andb_true_iff in Hl as [Hc Hl].
  rewrite app_String. cbn [find_quoted match_quoted].
  destruct (is_quote c); [discriminate|]. exact (IH Hl).
Qed.

Lemma find_quoted_none (tail : string) :
  unquoted tail = true -> find_quoted 0 tail = [].
Proof.
  intros H. rewrite <- (append_nil_r tail). rewrite (find_quoted_lead _ _ H). reflexivity.
Qed.

(** [re.findall] reads the literals of a written array back, one group for
    each, in their order. *)
Lemma find_quoted_literals (ls : list literal) (tail : string) :
  forallb well_quoted ls = true -> unquoted tail = true ->
  find_quoted 0 (write_literals ls +:+ tail) = chars <$> ls.
Proof.
  intros Hls Htail. induction ls as [|l ls IH].
  - apply find_quoted_none, Htail.
  - simpl in Hls. apply andb_true_iff in Hls as [Hl Hls].
    unfold well_quoted in Hl. repeat (apply andb_true_iff in Hl as [Hl ?]).
    cbn [write_literals foldr fmap list_fmap]. fold (write_literals ls).
    unfold write_literal.
    repeat (rewrite append_assoc || rewrite app_String || rewrite nil_append).
    rewrite find_quoted_lead by assumption.
    rewrite find_quoted_literal; try assumption.
    + f_equal. exact (IH Hls).
    + intros Heq. rewrite Heq in *. discriminate.
Qed.

Lemma find_quoted_origin (s : string) : forall (skip : nat) (u : string),
  u ∈ find_quoted skip s ->
  exists before q1 q2 after,
    s = before +:+ String q1 (u +:+ String q2 after)
    /\ is_quote q1 = true /\ is_quote q2 = true
    /\ unquoted u = true /\ u <> EmptyString.
Proof.
  assert (Hshift : forall (c : Ascii.ascii) (s' u : string),
    (exists before q1 q2 after,
       s' = before +:+ String q1 (u +:+ String q2 after)
       /\ is_quote q1 = true /\ is_quote q2 = true
       /\ unquoted u = true /\ u <> EmptyString) ->
    exists before q1 q2 after,
       String c s' = before +:+ String q1 (u +:+ String q2 after)
       /\ is_quote q1 = true /\ is_quote q2 = true
       /\ unquoted u = true /\ u <> EmptyString).
  { intros c s' u (before & q1 & q2 & after & -> & H).
    exists (String c before), q1, q2, after. split; [reflexivity | exact H]. }
  induction s as [|c s IH]; intros skip u; cbn [find_quoted].
  - intros H. apply elem_of_nil in H. contradiction.
  - destruct skip as [|k].
    + destruct (match_quoted (String c s)) as [[u0 rest]|] eqn:Hm.
      * intros H. apply elem_of_cons in H as [->|H].
        -- apply match_quoted_Some in Hm as (q1 & q2 & Hs & H).
           exists EmptyString, q1, q2, rest. split; [exact Hs | exact H].
        -- apply Hshift, (IH _ _ H).
      * intros H. apply Hshift, (IH _ _ H).
    + intros H. apply Hshift, (IH _ _ H).
Qed.

(** *** One script, and all of them *)

Lemma contains_nonempty (s sub : string) : contains s sub = true -> s <> EmptyString.
Proof. intros H ->. discriminate H. Qed.

(** What lines 90-104 take from a script that mentions [OpenSeadragon] and
    in which the first [tileSources] is followed by an array of string
    literals: the literals that contain [info.json], in the order of the
    array, whatever kind of quote each of them has on either side. The rest
    of the script, and with it every later [tileSources], is not looked at.
    The literals are taken as they stand: a relative URL stays relative. *)
Theorem script_sources_array (pre ws1 ws2 tail post : string) (ls : list literal) :
  let sources_str := write_literals ls +:+ tail in
  let content :=
    pre +:+ "tileSources" +:+ ws1 +:+ ":" +:+ ws2 +:+ "[" +:+ sources_str +:+ "]" +:+ post in
  contains content "OpenSeadragon" = true ->
  contains pre "tileSources" = false ->
  all_spaces ws1 = true -> all_spaces ws2 = true ->
  forallb well_quoted ls = true -> unquoted tail = true ->
  occurs "]"%char sources_str = false ->
  script_sources (Some content)
  = filter (fun url => contains url "info.json" = true) (chars <$> ls).
Proof.
  intros sources_str content Hosd Hpre Hws1 Hws2 Hls Htail Hocc.
  unfold script_sources. rewrite Hosd.
  destruct (String.eqb_spec content EmptyString) as [Heq|_];
    [exfalso; exact (contains_nonempty _ _ Hosd Heq)|].
  cbn [negb andb]. unfold content at 1.
  rewrite (search_skips pre _ Hpre).
  rewrite (search_here _ sources_str).
  - unfold sources_str. rewrite (find_quoted_literals ls tail Hls Htail). reflexivity.
  - apply match_tile_sources_written; assumption.
Qed.

Lemma script_sources_array_witness :
  script_sources (Some PageSamples.script)
  = [PageSamples.manifest1; PageSamples.manifest2].
Proof.
  exact (script_sources_array
           "OpenSeadragon({ id: 'viewer', " EmptyString " " " " " });"
           [mk_literal " " "039"%char PageSamples.manifest1 "039"%char;
            mk_literal ", " "039"%char PageSamples.manifest2 "039"%char;
            mk_literal ", " "039"%char "thumb.jpg" "039"%char]
           eq_refl eq_refl eq_refl eq_refl eq_refl eq_refl eq_refl).
Defined.

(** Every URL that [extract_openseadragon_sources] returns stands between
    two quotes, of either kind, in the text of a script tag that mentions
    [OpenSeadragon]; it contains [info.json] and no quote and no closing
    bracket. Nothing is returned that the page does not spell out. *)
Theorem extracted_source_origin (script_tags : list (option string)) (url : string) :
  url ∈ extract_openseadragon_sources script_tags ->
  exists (content before after : string) (q1 q2 : Ascii.ascii),
    Some content ∈ script_tags
    /\ contains content "OpenSeadragon" = true
    /\ content = before +:+ String q1 (url +:+ String q2 after)
    /\ is_quote q1 = true /\ is_quote q2 = true
    /\ contains url "info.json" = true
    /\ unquoted url = true
    /\ occurs "]"%char url = false.
Proof.
  unfold extract_openseadragon_sources. intros H.
  apply list_elem_of_bind in H as (tag & Hurl & Htag).
  unfold script_sources in Hurl.
  destruct tag as [content|]; [|apply elem_of_nil in Hurl; contradiction].
  destruct (negb (String.eqb content EmptyString)); cbn [andb] in Hurl;
    [|apply elem_of_nil in Hurl; contradiction].
  destruct (contains content "OpenSeadragon") eqn:Hosd;
    [|apply elem_of_nil in Hurl; contradiction].
  destruct (search_tile_sources content) as [sources_str|] eqn:Hsearch;
    [|apply elem_of_nil in Hurl; contradiction].
  apply list_elem_of_filter in Hurl as [Hinfo Hurl].
  apply search_origin in Hsearch as (b1 & a1 & -> & Hocc).
  apply find_quoted_origin in Hurl as (b2 & q1 & q2 & a2 & -> & Hq1 & Hq2 & Hu & _).
  exists (b1 +:+ (b2 +:+ String q1 (url +:+ String q2 a2)) +:+ a1), (b1 +:+ b2), (a2 +:+ a1), q1, q2.
  repeat split; try assumption.
  - repeat (rewrite append_assoc || rewrite app_String || rewrite nil_append). reflexivity.
  - rewrite !occurs_app in Hocc. simpl in Hocc. rewrite occurs_app in Hocc.
    repeat (apply orb_false_iff in Hocc as [? Hocc] || apply orb_false_iff in Hocc as [Hocc ?]).
    assumption.
Qed.

Lemma extracted_source_origin_witness :
  let script_tags := [None; Some "var x = 'a/info.json';"; Some PageSamples.script] in
  let url := PageSamples.manifest2 in
  exists (content before after : string) (q1 q2 : Ascii.ascii),
    Some content ∈ script_tags
    /\ contains content "OpenSeadragon" = true
    /\ content = before +:+ String q1 (url +:+ String q2 after)
    /\ is_quote q1 = true /\ is_quote q2 = true
    /\ contains url "info.json" = true
    /\ unquoted url = true
    /\ occurs "]"%char url = false.
Proof.
  intros script_tags url.
  apply (extracted_source_origin script_tags url).
  vm_compute. apply list_elem_of_further, list_elem_of_here.
Defined.

(** ** The images of a page *)






